(** * Trading-Analyzer: the data-to-metrics pipeline

    A shallow embedding of the numeric core of the repository
    (models/stock.py, models/portfolio.py, models/transaction.py,
    utils/action_dict.py, analysis/indicators.py, analysis/statistics.py,
    api/data_fetcher.py, api/async_fetcher.py)
    and the properties its specification states about it.

    Numbers.  Python's [float] and numpy's [float64] are modelled by
    [float] below: an exact rational, or one of the three special values
    NaN, -inf, +inf.  The special values follow IEEE 754 (NaN propagates,
    NaN compares false with everything, x/0 is an infinity or NaN under
    numpy).  The rounding of the binary format, its overflow to an
    infinity, its underflow to zero and the sign of zero are not
    modelled.  The properties below are stated on what rounding leaves
    alone: which results are missing, NaN or zero, the order and the
    sign of values, and the operations a result is composed of. *)

From Stdlib Require Import QArith Qround Lqa ZArith Lia Ascii String.
From stdpp Require Import base option list.

Local Open Scope Z_scope.

(* ===================================================================== *)
(** ** Floating-point values *)
(* ===================================================================== *)

Inductive float : Type :=
| NaN
| NInf
| Fin (q : Q)
| PInf.

(** The literal of an integer constant of the source, as in [100] or [0]. *)
Definition lit (z : Z) : float := Fin (inject_Z z).

Definition Qlt_bool (a b : Q) : bool := negb (Qle_bool b a).

(** [x == y] *)
Definition feqb (x y : float) : bool :=
  match x, y with
  | Fin a, Fin b => Qeq_bool a b
  | PInf, PInf => true
  | NInf, NInf => true
  | _, _ => false
  end.

(** [x < y] *)
Definition fltb (x y : float) : bool :=
  match x, y with
  | NaN, _ | _, NaN => false
  | NInf, NInf => false
  | NInf, _ => true
  | Fin a, Fin b => Qlt_bool a b
  | Fin _, PInf => true
  | Fin _, NInf => false
  | PInf, _ => false
  end.

(** [x > y] *)
Definition fgtb (x y : float) : bool := fltb y x.

(** [-x] *)
Definition fneg (x : float) : float :=
  match x with
  | NaN => NaN
  | NInf => PInf
  | Fin a => Fin (- a)
  | PInf => NInf
  end.

(** [x + y] *)
Definition fadd (x y : float) : float :=
  match x, y with
  | NaN, _ | _, NaN => NaN
  | PInf, NInf | NInf, PInf => NaN
  | PInf, _ | _, PInf => PInf
  | NInf, _ | _, NInf => NInf
  | Fin a, Fin b => Fin (a + b)
  end.

(** [x - y] *)
Definition fsub (x y : float) : float := fadd x (fneg y).

(** The sign of a rational as a comparison with zero. *)
Definition Qsign (a : Q) : comparison := (a ?= 0)%Q.

(** An infinity with the sign of [s] ([Eq] counts as positive: zero is
    taken as +0). *)
Definition inf_of (s : comparison) : float :=
  match s with Lt => NInf | _ => PInf end.

Definition flip_sign (s : comparison) : comparison :=
  match s with Lt => Gt | Gt => Lt | Eq => Eq end.

(** [x * y] *)
Definition fmul (x y : float) : float :=
  match x, y with
  | NaN, _ | _, NaN => NaN
  | Fin a, Fin b => Fin (a * b)
  | PInf, PInf | NInf, NInf => PInf
  | PInf, NInf | NInf, PInf => NInf
  | PInf, Fin b | Fin b, PInf =>
      match Qsign b with Eq => NaN | s => inf_of s end
  | NInf, Fin b | Fin b, NInf =>
      match Qsign b with Eq => NaN | s => inf_of (flip_sign s) end
  end.

(** [x / y] on numpy's float64: a zero denominator gives an infinity, or
    NaN for 0/0, and never raises. *)
Definition fdiv (x y : float) : float :=
  match x, y with
  | NaN, _ | _, NaN => NaN
  | (PInf | NInf), (PInf | NInf) => NaN
  | PInf, Fin b => inf_of (Qsign b)
  | NInf, Fin b => inf_of (flip_sign (Qsign b))
  | Fin _, (PInf | NInf) => Fin 0
  | Fin a, Fin b =>
      if Qeq_bool b 0 then
        match Qsign a with Eq => NaN | s => inf_of s end
      else Fin (a / b)
  end.

(** The outcome of a call that may raise. *)
Inductive exn : Type := ZeroDivisionError.

Inductive outcome (A : Type) : Type :=
| Return (a : A)
| Raise (e : exn).

Arguments Return {A} a.
Arguments Raise {A} e.

(** Python's [x / y] on its own numbers: a zero denominator raises
    ZeroDivisionError. *)
Definition py_truediv (x y : float) : outcome float :=
  if feqb y (lit 0) then Raise ZeroDivisionError else Return (fdiv x y).

(** Rounding of a rational to the nearest integer, ties to even. *)
Definition round_half_even (a : Q) : Z :=
  let n := Qnum a in
  let d := Z.pos (Qden a) in
  let f := n / d in
  let r := n mod d in
  match 2 * r ?= d with
  | Lt => f
  | Gt => f + 1
  | Eq => if Z.even f then f else f + 1
  end.

(** [round(x, 2)]: the nearest multiple of 1/100, ties to even; NaN and
    the infinities are returned unchanged. *)
Definition round2 (x : float) : float :=
  match x with
  | Fin a => Fin (round_half_even (a * 100) # 100)
  | _ => x
  end.

(** [sum(xs)], from the left, starting at 0. *)
Definition fsum (xs : list float) : float := fold_left fadd xs (lit 0).

(** [float(n)] of a length or a count. *)
Definition float_of_nat (n : nat) : float := lit (Z.of_nat n).

Definition is_nan (x : float) : bool :=
  match x with NaN => true | _ => false end.

Definition is_finite (x : float) : Prop :=
  match x with Fin _ => True | _ => False end.

(* ===================================================================== *)
(** ** models/stock.py *)
(* ===================================================================== *)

(** [str.upper()] on ASCII text: the letters a..z are mapped to A..Z,
    every other character is kept. *)
Definition upper_ascii (c : ascii) : ascii :=
  let n := nat_of_ascii c in
  if ((97 <=? n) && (n <=? 122))%nat then ascii_of_nat (n - 32) else c.

Fixpoint upper (s : string) : string :=
  match s with
  | EmptyString => EmptyString
  | String c s' => String (upper_ascii c) (upper s')
  end.

(** A reading of the clock, [datetime.now()]. *)
Definition datetime : Type := Z.

Record Stock : Type := mkStock {
  symbol : string;
  name : string;
  current_price : option float;
  opening_price : option float;
  highest_price : option float;
  lowest_price : option float;
  volume : option Z;
  last_update : option datetime
}.

(** [Stock.__init__(symbol, name)] *)
Definition new_Stock (sym nm : string) : Stock :=
  {| symbol := upper sym; name := nm;
     current_price := None; opening_price := None;
     highest_price := None; lowest_price := None;
     volume := None; last_update := None |}.

(** Assignments to the attributes written by [update_price]. *)
Definition set_current_price (v : option float) (s : Stock) : Stock :=
  mkStock (symbol s) (name s) v (opening_price s) (highest_price s)
          (lowest_price s) (volume s) (last_update s).

Definition set_opening_price (v : option float) (s : Stock) : Stock :=
  mkStock (symbol s) (name s) (current_price s) v (highest_price s)
          (lowest_price s) (volume s) (last_update s).

Definition set_highest_price (v : option float) (s : Stock) : Stock :=
  mkStock (symbol s) (name s) (current_price s) (opening_price s) v
          (lowest_price s) (volume s) (last_update s).

Definition set_lowest_price (v : option float) (s : Stock) : Stock :=
  mkStock (symbol s) (name s) (current_price s) (opening_price s)
          (highest_price s) v (volume s) (last_update s).

Definition set_volume (v : option Z) (s : Stock) : Stock :=
  mkStock (symbol s) (name s) (current_price s) (opening_price s)
          (highest_price s) (lowest_price s) v (last_update s).

Definition set_last_update (v : option datetime) (s : Stock) : Stock :=
  mkStock (symbol s) (name s) (current_price s) (opening_price s)
          (highest_price s) (lowest_price s) (volume s) v.

(** [if arg is not None: self.field = arg] *)
Definition assign_if_given {A : Type} (set : option A -> Stock -> Stock)
    (arg : option A) (s : Stock) : Stock :=
  match arg with
  | Some v => set (Some v) s
  | None => s
  end.

(** [Stock.update_price(new_price, opening, high, low, volume)], run when
    the clock reads [now]: the stock after the call. *)
Definition update_price (now : datetime) (self : Stock) (new_price : float)
    (opening high low : option float) (vol : option Z) : Stock :=
  let self := set_current_price (Some new_price) self in
  let self := assign_if_given set_opening_price opening self in
  let self := assign_if_given set_highest_price high self in
  let self := assign_if_given set_lowest_price low self in
  let self := assign_if_given set_volume vol self in
  set_last_update (Some now) self.

(** [Stock.get_variation()] *)
Definition get_variation (self : Stock) : option float :=
  match current_price self, opening_price self with
  | Some c, Some o =>
      if feqb o (lit 0) then None
      else Some (round2 (fmul (fdiv (fsub c o) o) (lit 100)))
  | _, _ => None
  end.

(** [Stock.get_variation()] with Python's raising division made explicit. *)
Definition get_variation_checked (self : Stock) : outcome (option float) :=
  match current_price self, opening_price self with
  | Some c, Some o =>
      if feqb o (lit 0) then Return None
      else
        match py_truediv (fsub c o) o with
        | Return d => Return (Some (round2 (fmul d (lit 100))))
        | Raise e => Raise e
        end
  | _, _ => Return None
  end.

(** [Stock.get_variation_value()] *)
Definition get_variation_value (self : Stock) : option float :=
  match current_price self, opening_price self with
  | Some c, Some o => Some (round2 (fsub c o))
  | _, _ => None
  end.

(* ===================================================================== *)
(** ** models/portfolio.py *)
(* ===================================================================== *)

Record Portfolio : Type := mkPortfolio {
  portfolio_name : string;
  stocks : list Stock
}.

(** [Portfolio.__init__(name)] *)
Definition new_Portfolio (nm : string) : Portfolio :=
  {| portfolio_name := nm; stocks := [] |}.

(** The loop of [get_stock]: the first stock whose symbol is [sym]. *)
Fixpoint first_with_symbol (sym : string) (l : list Stock) : option Stock :=
  match l with
  | [] => None
  | stock :: rest =>
      if String.eqb (symbol stock) sym then Some stock
      else first_with_symbol sym rest
  end.

(** [Portfolio.get_stock(symbol)] *)
Definition get_stock (self : Portfolio) (sym : string) : option Stock :=
  first_with_symbol (upper sym) (stocks self).

(** [Portfolio.add_stock(stock)]: the returned flag and the portfolio
    after the call. *)
Definition add_stock (self : Portfolio) (stock : Stock) : bool * Portfolio :=
  match get_stock self (symbol stock) with
  | Some _ => (false, self)
  | None =>
      (true, {| portfolio_name := portfolio_name self;
                stocks := stocks self ++ [stock] |})
  end.

(** [Portfolio.get_total_value()] *)
Definition get_total_value (self : Portfolio) : float :=
  let total :=
    fold_left
      (fun total stock =>
         match current_price stock with
         | Some price => fadd total price
         | None => total
         end)
      (stocks self) (lit 0) in
  round2 total.

(** One turn of the loop of [get_best_performer] on the pair
    [(best_stock, best_variation)]. *)
Definition best_step (acc : option Stock * float) (stock : Stock)
    : option Stock * float :=
  match get_variation stock with
  | Some variation =>
      if fgtb variation (snd acc) then (Some stock, variation) else acc
  | None => acc
  end.

(** [Portfolio.get_best_performer()] *)
Definition get_best_performer (self : Portfolio) : option Stock :=
  match stocks self with
  | [] => None
  | _ => fst (fold_left best_step (stocks self) (None, NInf))
  end.

(** One turn of the loop of [get_worst_performer]. *)
Definition worst_step (acc : option Stock * float) (stock : Stock)
    : option Stock * float :=
  match get_variation stock with
  | Some variation =>
      if fltb variation (snd acc) then (Some stock, variation) else acc
  | None => acc
  end.

(** [Portfolio.get_worst_performer()] *)
Definition get_worst_performer (self : Portfolio) : option Stock :=
  match stocks self with
  | [] => None
  | _ => fst (fold_left worst_step (stocks self) (None, PInf))
  end.

(** The list [variations] built by the loop of [get_average_variation]. *)
Definition collect_variations (l : list Stock) : list float :=
  fold_left
    (fun variations stock =>
       match get_variation stock with
       | Some var => variations ++ [var]
       | None => variations
       end)
    l [].

(** [Portfolio.get_average_variation()] *)
Definition get_average_variation (self : Portfolio) : option float :=
  match stocks self with
  | [] => None
  | _ =>
      let variations := collect_variations (stocks self) in
      match variations with
      | [] => None
      | _ =>
          Some (round2 (fdiv (fsum variations)
                             (float_of_nat (length variations))))
      end
  end.

(** The loop of [remove_stock]: the index of the first stock whose symbol
    is [sym], counted from [i]. *)
Fixpoint index_with_symbol (sym : string) (i : nat) (l : list Stock)
    : option nat :=
  match l with
  | [] => None
  | stock :: rest =>
      if String.eqb (symbol stock) sym then Some i
      else index_with_symbol sym (S i) rest
  end.

(** [Portfolio.remove_stock(symbol)]: the returned flag and the portfolio
    after the call ([self.stocks.pop(i)] on a match). *)
Definition remove_stock (self : Portfolio) (sym : string) : bool * Portfolio :=
  match index_with_symbol (upper sym) 0 (stocks self) with
  | Some i =>
      (true, {| portfolio_name := portfolio_name self;
                stocks := delete i (stocks self) |})
  | None => (false, self)
  end.

(** [Portfolio.get_stocks_count()] *)
Definition get_stocks_count (self : Portfolio) : nat := length (stocks self).

(* ===================================================================== *)
(** ** models/transaction.py *)
(* ===================================================================== *)

(** [x <= y] *)
Definition fleb (x y : float) : bool := fltb x y || feqb x y.

Inductive TransactionType : Type := BUY | SELL.

(** [TransactionType.value] *)
Definition TransactionType_value (ty : TransactionType) : string :=
  match ty with
  | BUY => "ACHAT"
  | SELL => "VENTE"
  end.

Record Transaction : Type := mkTransaction {
  transaction_id : option Z;
  stock_symbol : string;
  transaction_type : TransactionType;
  quantity : Z;
  price_per_share : float;
  transaction_date : datetime;
  fees : float
}.

(** [Transaction.__init__(...)], run when the clock reads [now]; [inl] is
    the ValueError raised, with its message. *)
Definition new_Transaction (now : datetime) (sym : string)
    (ty : TransactionType) (qty : Z) (price : float)
    (date : option datetime) (fee : float) : string + Transaction :=
  if qty <=? 0 then inl "La quantité doit être positive"%string
  else if fleb price (lit 0)
  then inl "Le prix par action doit être positif"%string
  else
    inr {| transaction_id := None;
           stock_symbol := upper sym;
           transaction_type := ty;
           quantity := qty;
           price_per_share := price;
           transaction_date :=
             match date with Some d => d | None => now end;
           fees := fee |}.

(** The conversion of an [int] to float64 that [int * float] makes
    first: it raises OverflowError when the integer, rounded to the
    nearest float with ties to even, would reach 2^1024.  [inl] is the
    exception raised, with its message. *)
Definition float_of_int (n : Z) : string + float :=
  if Z.abs n <? 2 ^ 1024 - 2 ^ 970 then inr (lit n)
  else inl "int too large to convert to float"%string.

(** [Transaction.get_total_amount()] *)
Definition get_total_amount (self : Transaction) : string + float :=
  match float_of_int (quantity self) with
  | inl e => inl e
  | inr q => inr (fadd (fmul q (price_per_share self)) (fees self))
  end.

(** [Transaction.is_buy()] and [Transaction.is_sell()] *)
Definition is_buy (self : Transaction) : bool :=
  match transaction_type self with BUY => true | SELL => false end.

Definition is_sell (self : Transaction) : bool :=
  match transaction_type self with SELL => true | BUY => false end.

(** [Transaction.get_net_amount()] *)
Definition get_net_amount (self : Transaction) : string + float :=
  match get_total_amount self with
  | inl e => inl e
  | inr total => inr (if is_buy self then fneg total else total)
  end.

(* ===================================================================== *)
(** ** utils/action_dict.py *)
(* ===================================================================== *)

(** [str.lower()] on ASCII text, as [upper] above. *)
Definition lower_ascii (c : ascii) : ascii :=
  let n := nat_of_ascii c in
  if ((65 <=? n) && (n <=? 90))%nat then ascii_of_nat (n + 32) else c.

Fixpoint lower (s : string) : string :=
  match s with
  | EmptyString => EmptyString
  | String c s' => String (lower_ascii c) (lower s')
  end.

(** [c.isspace()] on ASCII: tab to carriage return, the four separators
    28 to 31, and the space. *)
Definition is_space (c : ascii) : bool :=
  let n := nat_of_ascii c in
  (((9 <=? n) && (n <=? 13)) || ((28 <=? n) && (n <=? 32)))%nat.

(** [str.strip()]: white space is dropped at both ends. *)
Fixpoint lstrip (s : string) : string :=
  match s with
  | EmptyString => EmptyString
  | String c s' => if is_space c then lstrip s' else s
  end.

Fixpoint rstrip (s : string) : string :=
  match s with
  | EmptyString => EmptyString
  | String c s' =>
      match rstrip s' with
      | EmptyString => if is_space c then EmptyString else String c EmptyString
      | r => String c r
      end
  end.

Definition strip (s : string) : string := rstrip (lstrip s).

(** A dictionary from names to symbols ([None] for a company that is not
    listed), in the order of insertion of its keys. *)
Definition name_dict : Type := list (string * option string).

(** [d[k] = v]: the value of a key already there is replaced where the
    key stands, a new key goes to the end. *)
Fixpoint dict_set (k : string) (v : option string) (d : name_dict)
    : name_dict :=
  match d with
  | [] => [(k, v)]
  | (k', v') :: rest =>
      if String.eqb k' k then (k', v) :: rest
      else (k', v') :: dict_set k v rest
  end.

(** The dictionary a display [{k1: v1, k2: v2, ...}] builds. *)
Definition dict_display (items : list (string * option string)) : name_dict :=
  fold_left (fun d kv => dict_set (fst kv) (snd kv) d) items [].

(** [ACTIONS_DICT] *)
Definition ACTIONS_DICT : name_dict :=
  dict_display [
    ("Apple", Some "AAPL");
    ("Microsoft", Some "MSFT");
    ("Google", Some "GOOGL");
    ("Alphabet", Some "GOOGL");
    ("Amazon", Some "AMZN");
    ("Meta", Some "META");
    ("Facebook", Some "META");
    ("Tesla", Some "TSLA");
    ("Nvidia", Some "NVDA");
    ("Netflix", Some "NFLX");
    ("Adobe", Some "ADBE");
    ("Intel", Some "INTC");
    ("AMD", Some "AMD");
    ("Salesforce", Some "CRM");
    ("Oracle", Some "ORCL");
    ("IBM", Some "IBM");
    ("Cisco", Some "CSCO");
    ("PayPal", Some "PYPL");
    ("Uber", Some "UBER");
    ("Lyft", Some "LYFT");
    ("Airbnb", Some "ABNB");
    ("Snap", Some "SNAP");
    ("Twitter", Some "TWTR");
    ("Spotify", Some "SPOT");
    ("Zoom", Some "ZM");
    ("Shopify", Some "SHOP");
    ("Square", Some "SQ");
    ("Block", Some "SQ");
    ("Roku", Some "ROKU");
    ("Roblox", Some "RBLX");
    ("JPMorgan", Some "JPM");
    ("Bank of America", Some "BAC");
    ("Wells Fargo", Some "WFC");
    ("Goldman Sachs", Some "GS");
    ("Morgan Stanley", Some "MS");
    ("Citigroup", Some "C");
    ("American Express", Some "AXP");
    ("Visa", Some "V");
    ("Mastercard", Some "MA");
    ("BlackRock", Some "BLK");
    ("Walmart", Some "WMT");
    ("Target", Some "TGT");
    ("Costco", Some "COST");
    ("Nike", Some "NKE");
    ("Adidas", Some "ADDYY");
    ("Starbucks", Some "SBUX");
    ("McDonald's", Some "MCD");
    ("Coca-Cola", Some "KO");
    ("PepsiCo", Some "PEP");
    ("Procter & Gamble", Some "PG");
    ("Johnson & Johnson", Some "JNJ");
    ("Ford", Some "F");
    ("General Motors", Some "GM");
    ("Ferrari", Some "RACE");
    ("Toyota", Some "TM");
    ("Honda", Some "HMC");
    ("Volkswagen", Some "VWAGY");
    ("BMW", Some "BMWYY");
    ("ExxonMobil", Some "XOM");
    ("Chevron", Some "CVX");
    ("Shell", Some "SHEL");
    ("BP", Some "BP");
    ("TotalEnergies", Some "TTE");
    ("Boeing", Some "BA");
    ("Airbus", Some "EADSY");
    ("Lockheed Martin", Some "LMT");
    ("SpaceX", None);
    ("Pfizer", Some "PFE");
    ("Moderna", Some "MRNA");
    ("AstraZeneca", Some "AZN");
    ("Novartis", Some "NVS");
    ("Merck", Some "MRK");
    ("LVMH", Some "LVMUY");
    ("Hermès", Some "HESAY");
    ("Kering", Some "PPRUY");
    ("Total", Some "TTE");
    ("TotalEnergies", Some "TTE");
    ("LVMH", Some "LVMUY");
    ("Sanofi", Some "SNY");
    ("L'Oréal", Some "LRLCY");
    ("Air Liquide", Some "AIQUY");
    ("BNP Paribas", Some "BNPQY");
    ("Airbus", Some "EADSY");
    ("Danone", Some "DANOY");
    ("Michelin", Some "MGDDY");
    ("Renault", Some "RNLSY");
    ("Peugeot", Some "PUGOY");
    ("Carrefour", Some "CRRFY");
    ("Orange", Some "ORAN");
    ("Veolia", Some "VEOEY")
  ]%string.

(** The loop of [rechercher_action]: the value of the first name that,
    in lower case, is [wanted]. *)
Fixpoint find_name (wanted : string) (items : name_dict)
    : option (option string) :=
  match items with
  | [] => None
  | (nom, symbole) :: rest =>
      if String.eqb (lower nom) wanted then Some symbole
      else find_name wanted rest
  end.

(** [rechercher_action(nom_ou_symbole)] *)
Definition rechercher_action (nom_ou_symbole : string) : option string :=
  let recherche := strip nom_ou_symbole in
  match find_name (lower recherche) ACTIONS_DICT with
  | Some symbole => symbole
  | None => Some (upper recherche)
  end.

(* ===================================================================== *)
(** ** pandas Series operations used by the analysis modules *)
(* ===================================================================== *)

(** One row of the historical DataFrame. *)
Record Bar : Type := mkBar {
  Date : Z;
  Open : float;
  High : float;
  Low : float;
  Close : float;
  Volume : Z
}.

Definition DataFrame : Type := list Bar.

(** [data['Close']] *)
Definition Close_column (data : DataFrame) : list float := map Close data.

(** [Series.shift(1)]: every value moves one row down, the first row
    becomes NaN. *)
Definition shift (xs : list float) : list float :=
  match xs with
  | [] => []
  | _ => NaN :: removelast xs
  end.

(** Row-wise application of a binary operation to two Series. *)
Fixpoint rowwise (f : float -> float -> float) (xs ys : list float)
    : list float :=
  match xs, ys with
  | x :: xs', y :: ys' => f x y :: rowwise f xs' ys'
  | _, _ => []
  end.

(** [Series.diff()]: [data - data.shift(1)]. *)
Definition diff (xs : list float) : list float := rowwise fsub xs (shift xs).

(** [Series.pct_change()] on a column without missing values:
    [data / data.shift(1) - 1]. *)
Definition pct_change (xs : list float) : list float :=
  map (fun r => fsub r (lit 1)) (rowwise fdiv xs (shift xs)).

(** [Series.where(cond, other)] *)
Definition where_ (cond : float -> bool) (other : float) (xs : list float)
    : list float :=
  map (fun x => if cond x then x else other) xs.

(** The observations of a window: its entries that are not NaN. *)
Definition observations (xs : list float) : list float :=
  List.filter (fun x => negb (is_nan x)) xs.

(** The trailing [n] entries of a list (all of it when it is shorter). *)
Definition trailing (n : nat) (xs : list float) : list float :=
  skipn (length xs - n) xs.

(** The value of [rolling(window).mean()] at the last row of [xs]: the
    mean of the observations among the trailing [window] rows, NaN when
    there are fewer than [min_periods = window] of them.  (pandas keeps a
    running sum from window to window; here each window is summed on its
    own, which agrees with it on the windows that are not full and on
    the windows of zeros.) *)
Definition window_mean (window : nat) (xs : list float) : float :=
  let obs := observations (trailing window xs) in
  let nobs := length obs in
  if ((window <=? nobs) && (0 <? nobs))%nat
  then fdiv (fsum obs) (float_of_nat nobs)
  else NaN.

(** [Series.rolling(window).mean()] *)
Definition rolling_mean (window : nat) (xs : list float) : list float :=
  map (fun i => window_mean window (firstn (S i) xs)) (seq 0 (length xs)).

(** [Series.iloc[-1]] of a Series with at least one row (on an empty
    Series pandas raises IndexError; every use below comes after the
    [data.empty] test). *)
Definition iloc_last (xs : list float) : float := List.last xs NaN.

(** [Series.iloc[0]], under the same proviso. *)
Definition iloc_first (xs : list float) : float := List.hd NaN xs.

(** [nanops.nanvar(values, ddof)]: the variance of the observations with
    [count - ddof] in the denominator, NaN when [count <= ddof]. *)
Definition nanvar (ddof : nat) (xs : list float) : float :=
  let obs := observations xs in
  let count := length obs in
  if (count <=? ddof)%nat then NaN
  else
    let avg := fdiv (fsum obs) (float_of_nat count) in
    let sqr := map (fun x => fmul (fsub avg x) (fsub avg x)) obs in
    fdiv (fsum sqr) (float_of_nat (count - ddof)).

(** [self.data is None or self.data.empty] *)
Definition no_data (data : option DataFrame) : bool :=
  match data with
  | None => true
  | Some [] => true
  | Some (_ :: _) => false
  end.

(** The DataFrame behind [self.data] once [no_data] is false. *)
Definition frame (data : option DataFrame) : DataFrame :=
  match data with
  | Some d => d
  | None => []
  end.

(** [Series.mean()]: the mean of the observations, NaN when there is
    none. *)
Definition series_mean (xs : list float) : float :=
  let obs := observations xs in
  match obs with
  | [] => NaN
  | _ => fdiv (fsum obs) (float_of_nat (length obs))
  end.

(** The lesser and the greater of two observations. *)
Definition fmin2 (x y : float) : float := if fltb y x then y else x.

Definition fmax2 (x y : float) : float := if fltb x y then y else x.

(** [Series.min()] and [Series.max()]: over the observations, NaN when
    there is none. *)
Definition series_min (xs : list float) : float :=
  match observations xs with
  | [] => NaN
  | x :: rest => fold_left fmin2 rest x
  end.

Definition series_max (xs : list float) : float :=
  match observations xs with
  | [] => NaN
  | x :: rest => fold_left fmax2 rest x
  end.

(* ===================================================================== *)
(** ** analysis/indicators.py *)
(* ===================================================================== *)

(** [gains = delta.where(delta > 0, 0)] *)
Definition gains_of (delta : list float) : list float :=
  where_ (fun d => fgtb d (lit 0)) (lit 0) delta.

(** [losses = -delta.where(delta < 0, 0)] *)
Definition losses_of (delta : list float) : list float :=
  map fneg (where_ (fun d => fltb d (lit 0)) (lit 0) delta).

(** [gains.rolling(window=period).mean().iloc[-1]] *)
Definition avg_gain_of (data : DataFrame) (period : nat) : float :=
  iloc_last (rolling_mean period (gains_of (diff (Close_column data)))).

(** [losses.rolling(window=period).mean().iloc[-1]] *)
Definition avg_loss_of (data : DataFrame) (period : nat) : float :=
  iloc_last (rolling_mean period (losses_of (diff (Close_column data)))).

(** [TechnicalIndicators.calculate_rsi(period)] on [self.data = data]. *)
Definition calculate_rsi (data : option DataFrame) (period : nat)
    : option float :=
  if no_data data then None
  else
    let avg_gain := avg_gain_of (frame data) period in
    let avg_loss := avg_loss_of (frame data) period in
    if feqb avg_loss (lit 0) then Some (lit 100)
    else
      let rs := fdiv avg_gain avg_loss in
      Some (fsub (lit 100) (fdiv (lit 100) (fadd (lit 1) rs))).

(** [TechnicalIndicators.get_simple_signal()] *)
Definition get_simple_signal (data : option DataFrame) : string :=
  match calculate_rsi data 14 with
  | None => "INCONNU"
  | Some rsi =>
      if fltb rsi (lit 30) then "ACHETER"
      else if fgtb rsi (lit 70) then "VENDRE"
      else "ATTENDRE"
  end.

(** The dictionary returned by [calculate_price_change]. *)
Record PriceChange : Type := mkPriceChange {
  prix_debut : float;
  prix_fin : float;
  variation : float;
  variation_pct : float
}.

(** [TechnicalIndicators.calculate_price_change()]; [None] is the empty
    dictionary. *)
Definition calculate_price_change (data : option DataFrame)
    : option PriceChange :=
  if no_data data then None
  else
    let first_price := iloc_first (Close_column (frame data)) in
    let last_price := iloc_last (Close_column (frame data)) in
    let change := fsub last_price first_price in
    let change_pct := fmul (fdiv change first_price) (lit 100) in
    Some {| prix_debut := first_price; prix_fin := last_price;
            variation := change; variation_pct := change_pct |}.

(* ===================================================================== *)
(** ** analysis/statistics.py *)
(* ===================================================================== *)

(** [Analyzer.calculate_daily_return()] *)
Definition calculate_daily_return (data : option DataFrame)
    : option (list float) :=
  if no_data data then None
  else Some (map (fun r => fmul r (lit 100))
                 (pct_change (Close_column (frame data)))).

Section Volatility.

(** [numpy.sqrt] on float64, which the repository does not define: the
    results below hold for every function that maps NaN to NaN. *)
Variable np_sqrt : float -> float.

(** [Series.std()]: [sqrt(nanvar(values, ddof=1))]. *)
Definition std (xs : list float) : float := np_sqrt (nanvar 1 xs).

(** [Analyzer.calculate_volatility()] *)
Definition calculate_volatility (data : option DataFrame) : option float :=
  match calculate_daily_return data with
  | None => None
  | Some returns => Some (std returns)
  end.

End Volatility.

(** [Analyzer.calculate_moving_average(window)] *)
Definition calculate_moving_average (data : option DataFrame) (window : nat)
    : option (list float) :=
  if no_data data then None
  else Some (rolling_mean window (Close_column (frame data))).

(** The dictionary returned by [get_statistics]. *)
Record Statistics : Type := mkStatistics {
  prix_moyen : float;
  prix_min : float;
  prix_max : float;
  ecart_type : float
}.

(** [Analyzer.get_statistics()]; [None] is the empty dictionary, and
    [np_sqrt] stands for [numpy.sqrt] as in [std]. *)
Definition get_statistics (np_sqrt : float -> float)
    (data : option DataFrame) : option Statistics :=
  if no_data data then None
  else
    let prices := Close_column (frame data) in
    Some {| prix_moyen := series_mean prices;
            prix_min := series_min prices;
            prix_max := series_max prices;
            ecart_type := std np_sqrt prices |}.

(** [Analyzer.calculate_trend(window)] *)
Definition calculate_trend (data : option DataFrame) (window : nat) : string :=
  if no_data data then "INCONNU"
  else
    let current_price := iloc_last (Close_column (frame data)) in
    match calculate_moving_average data window with
    | None => "INCONNU"
    | Some ma =>
        let ma_value := iloc_last ma in
        if fgtb current_price (fmul ma_value (Fin (102 # 100)))
        then "HAUSSE"
        else if fltb current_price (fmul ma_value (Fin (98 # 100)))
        then "BAISSE"
        else "STABLE"
    end.

(* ===================================================================== *)
(** ** api/data_fetcher.py *)
(* ===================================================================== *)

(** The dictionary [yf.Ticker(symbol).info], restricted to the keys the
    fetcher reads; [None] is a missing key.  (For ['currentPrice'] a key
    stored with the value [None] has the effect of a missing one: the
    message printed after the dictionary is built raises on it and the
    [except] branch returns [None].  For the other keys a stored [None]
    is not modelled.) *)
Record TickerInfo : Type := mkTickerInfo {
  longName : option string;
  shortName : option string;
  currentPrice : option float;
  regularMarketPrice : option float;
  open : option float;
  regularMarketOpen : option float;
  dayHigh : option float;
  regularMarketDayHigh : option float;
  dayLow : option float;
  regularMarketDayLow : option float;
  info_volume : option Z;
  regularMarketVolume : option Z;
  previousClose : option float;
  regularMarketPreviousClose : option float
}.

(** The backing data source: what [yf.Ticker(symbol).info] answers for a
    symbol, [None] when the request raises. *)
Definition Source : Type := string -> option TickerInfo.

(** [info.get(key, default)] where [default] is itself optional. *)
Definition get_or {A : Type} (value default : option A) : option A :=
  match value with
  | Some v => Some v
  | None => default
  end.

(** The dictionary returned by [fetch_current_price]. *)
Record PriceData : Type := mkPriceData {
  data_symbol : string;
  data_name : string;
  data_current_price : float;
  data_open : option float;
  data_high : option float;
  data_low : option float;
  data_volume : option Z;
  data_previous_close : option float
}.

(** [DataFetcher.fetch_current_price(symbol)]: [None] both when the symbol
    has no ['currentPrice'] and when the request raised (the [except]
    branch).  Past the test on ['currentPrice'] the key is present, so
    [info.get('currentPrice', ...)] is its value. *)
Definition fetch_current_price (src : Source) (sym : string)
    : option PriceData :=
  match src sym with
  | None => None
  | Some info =>
      match currentPrice info with
      | None => None
      | Some price =>
          Some {| data_symbol := upper sym;
                  data_name :=
                    match get_or (longName info) (shortName info) with
                    | Some n => n
                    | None => sym
                    end;
                  data_current_price := price;
                  data_open := get_or (open info) (regularMarketOpen info);
                  data_high := get_or (dayHigh info) (regularMarketDayHigh info);
                  data_low := get_or (dayLow info) (regularMarketDayLow info);
                  data_volume :=
                    get_or (info_volume info)
                           (get_or (regularMarketVolume info) (Some 0));
                  data_previous_close :=
                    get_or (previousClose info)
                           (regularMarketPreviousClose info) |}
      end
  end.

(** [DataFetcher.create_stock_from_api(symbol)], run when the clock reads
    [now]. *)
Definition create_stock_from_api (src : Source) (now : datetime)
    (sym : string) : option Stock :=
  match fetch_current_price src sym with
  | None => None
  | Some data =>
      let stock := new_Stock (data_symbol data) (data_name data) in
      Some (update_price now stock (data_current_price data)
              (data_open data) (data_high data) (data_low data)
              (data_volume data))
  end.

(** The clock: its reading at the k-th fetch of a batch. *)
Definition Clock : Type := nat -> datetime.

(** One turn of the loop of [fetch_multiple_stocks_sync] on the pair of
    the list [stocks] and the number of fetches done so far. *)
Definition sync_step (src : Source) (clock : Clock)
    (acc : list Stock * nat) (sym : string) : list Stock * nat :=
  match create_stock_from_api src (clock (snd acc)) sym with
  | Some stock => (fst acc ++ [stock], S (snd acc))
  | None => (fst acc, S (snd acc))
  end.

(** [DataFetcher.fetch_multiple_stocks_sync(symbols)] *)
Definition fetch_multiple_stocks_sync (src : Source) (clock : Clock)
    (symbols : list string) : list Stock :=
  fst (fold_left (sync_step src clock) symbols ([], 0%nat)).

(** The assignment [stock.name = ...] of [update_stock_from_api]. *)
Definition set_name (v : string) (s : Stock) : Stock :=
  mkStock (symbol s) v (current_price s) (opening_price s)
          (highest_price s) (lowest_price s) (volume s) (last_update s).

(** [DataFetcher.update_stock_from_api(stock)], run when the clock reads
    [now]: the returned flag and the stock after the call. *)
Definition update_stock_from_api (src : Source) (now : datetime)
    (stock : Stock) : bool * Stock :=
  match fetch_current_price src (symbol stock) with
  | None => (false, stock)
  | Some data =>
      let stock :=
        if String.eqb (name stock) (symbol stock)
           || String.eqb (name stock) ""
        then set_name (data_name data) stock
        else stock in
      (true, update_price now stock (data_current_price data)
               (data_open data) (data_high data) (data_low data)
               (data_volume data))
  end.

(* ===================================================================== *)
(** ** api/async_fetcher.py *)
(* ===================================================================== *)

(** What [asyncio.gather(..., return_exceptions=True)] stores for a task:
    the value it returned, or the exception it raised. *)
Inductive gathered : Type :=
| Returned (r : option Stock)
| Raised.

(** [AsyncFetcher.fetch_one_stock_async(symbol)], completing when the
    clock reads [now]. *)
Definition fetch_one_stock_async (src : Source) (now : datetime)
    (sym : string) : gathered :=
  Returned (create_stock_from_api src now sym).

(** The completion of task [i], the k-th to complete: its result goes to
    slot [i] of the result list, whatever the order of completion. *)
Definition complete (src : Source) (clock : Clock) (symbols : list string)
    (acc : list (option gathered) * nat) (i : nat)
    : list (option gathered) * nat :=
  match symbols !! i with
  | Some sym =>
      (<[i := Some (fetch_one_stock_async src (clock (snd acc)) sym)]> (fst acc),
       S (snd acc))
  | None => acc
  end.

(** The result list of [gather] once every slot is filled; [None] while a
    task is still pending. *)
Fixpoint all_done (slots : list (option gathered)) : option (list gathered) :=
  match slots with
  | [] => Some []
  | None :: _ => None
  | Some r :: rest =>
      match all_done rest with
      | Some rs => Some (r :: rs)
      | None => None
      end
  end.

(** [asyncio.gather] over the tasks, with [return_exceptions=True] and one task per
    symbol, the tasks completing in the order [schedule] (a list of task
    indices). *)
Definition gather (src : Source) (clock : Clock) (schedule : list nat)
    (symbols : list string) : option (list gathered) :=
  all_done
    (fst (fold_left (complete src clock symbols) schedule
            (replicate (length symbols) None, 0%nat))).

(** [result is not None and isinstance(result, Stock)] *)
Definition keep_stock (result : gathered) : option Stock :=
  match result with
  | Returned (Some stock) => Some stock
  | _ => None
  end.

(** [AsyncFetcher.fetch_multiple_stocks(symbols)] under a schedule of
    completions; [None] when the schedule leaves a task pending. *)
Definition fetch_multiple_stocks (src : Source) (clock : Clock)
    (schedule : list nat) (symbols : list string) : option (list Stock) :=
  match gather src clock schedule symbols with
  | Some results => Some (omap keep_stock results)
  | None => None
  end.

(** A stock without its timestamp. *)
Definition erase_time (s : Stock) : Stock := set_last_update None s.

(** [existing_stock.update_price(new_price=updated_stock.current_price,
    opening=updated_stock.opening_price, ...)] as written in
    [fetch_and_update_portfolio], run when the clock reads [now]: the new
    price is whatever [updated_stock] holds. *)
Definition refresh_price (now : datetime) (existing updated : Stock) : Stock :=
  let self := set_current_price (current_price updated) existing in
  let self := assign_if_given set_opening_price (opening_price updated) self in
  let self := assign_if_given set_highest_price (highest_price updated) self in
  let self := assign_if_given set_lowest_price (lowest_price updated) self in
  let self := assign_if_given set_volume (volume updated) self in
  set_last_update (Some now) self.

(** [portfolio.get_stock(symbol)] followed by a change of the stock it
    returns: the stock is changed where it stands in the list, the first
    one whose symbol is [sym]; [None] when there is none. *)
Fixpoint update_first_with_symbol (sym : string) (f : Stock -> Stock)
    (l : list Stock) : option (list Stock) :=
  match l with
  | [] => None
  | stock :: rest =>
      if String.eqb (symbol stock) sym then Some (f stock :: rest)
      else
        match update_first_with_symbol sym f rest with
        | Some rest' => Some (stock :: rest')
        | None => None
        end
  end.

(** One turn of the loop of [fetch_and_update_portfolio] on the list of
    stocks and the count [updates]; [clock] is read at each update. *)
Definition refresh_step (clock : Clock) (acc : list Stock * nat)
    (updated : Stock) : list Stock * nat :=
  match update_first_with_symbol (upper (symbol updated))
          (fun existing => refresh_price (clock (snd acc)) existing updated)
          (fst acc) with
  | Some l => (l, S (snd acc))
  | None => acc
  end.

(** [AsyncFetcher.fetch_and_update_portfolio(portfolio)] under a schedule
    of completions: the returned flag and the portfolio after the call;
    [None] when the schedule leaves a task pending. *)
Definition fetch_and_update_portfolio (src : Source)
    (fetch_clock update_clock : Clock) (schedule : list nat)
    (portfolio : Portfolio) : option (bool * Portfolio) :=
  match stocks portfolio with
  | [] => Some (false, portfolio)
  | _ =>
      let symbols := map symbol (stocks portfolio) in
      match fetch_multiple_stocks src fetch_clock schedule symbols with
      | None => None
      | Some updated_stocks =>
          let result :=
            fold_left (refresh_step update_clock) updated_stocks
                      (stocks portfolio, 0%nat) in
          Some ((0 <? snd result)%nat,
                {| portfolio_name := portfolio_name portfolio;
                   stocks := fst result |})
      end
  end.

(* ===================================================================== *)
(** ** Definitions that follow the words of the specification *)
(* ===================================================================== *)






(** A result of the code that stands for "no value": [None], or the
    missing-value marker NaN of pandas. *)
Definition absent (r : option float) : Prop := r = None \/ r = Some NaN.


(** The arithmetic mean of a list. *)
Definition mean (xs : list float) : float :=
  fdiv (fsum xs) (float_of_nat (length xs)).


(** The class invariant set up by [Stock.__init__]: the symbol is stored
    in upper case. *)
Definition canonical (s : Stock) : Prop := symbol s = upper (symbol s).

(** A decimal square root, truncated to six places: one function that
    can stand for [numpy.sqrt]. *)
Definition sqrt6 (x : float) : float :=
  match x with
  | Fin a =>
      if Qlt_bool a 0 then NaN
      else Fin (Z.sqrt (Qfloor (a * 1000000000000)) # 1000000)
  | PInf => PInf
  | _ => NaN
  end.

(** A finite value equal to zero. *)
Definition is_zero (x : float) : Prop :=
  match x with Fin a => (a == 0)%Q | _ => False end.

(** A finite value that is not negative. *)
Definition nonneg (x : float) : Prop :=
  match x with Fin a => (0 <= a)%Q | _ => False end.

(** The common shape of the loops of [get_best_performer] and
    [get_worst_performer]: [better] is the comparison that replaces the
    current choice. *)
Definition scan_step (better : float -> float -> bool)
    (acc : option Stock * float) (stock : Stock) : option Stock * float :=
  match get_variation stock with
  | Some variation =>
      if better variation (snd acc) then (Some stock, variation) else acc
  | None => acc
  end.

(** What the scan has established after the stocks [seen]: nothing seen
    beats the current bound, and the current choice, if any, is the first
    stock seen with that variation. *)
Definition scan_inv (better : float -> float -> bool) (bound : float)
    (seen : list Stock) (acc : option Stock * float) : Prop :=
  (forall j s w, seen !! j = Some s -> get_variation s = Some w ->
                 better w (snd acc) = false) /\
  match fst acc with
  | None => snd acc = bound
  | Some b =>
      exists i, seen !! i = Some b /\ get_variation b = Some (snd acc) /\
                better (snd acc) bound = true /\
                (forall j s w, (j < i)%nat -> seen !! j = Some s ->
                               get_variation s = Some w ->
                               feqb w (snd acc) = false)
  end.

(** The stocks a batch over [symbols] can create from the source, in the
    order of the symbols, without their timestamps. *)
Definition created (src : Source) (symbols : list string) : list Stock :=
  omap (fun sym => erase_time <$> create_stock_from_api src 0 sym) symbols.

(** The invariant of a portfolio built with [add_stock] from stocks made
    by [Stock.__init__]: upper-case symbols, no symbol twice. *)
Definition unique_symbols (p : Portfolio) : Prop :=
  Forall canonical (stocks p) /\ NoDup (map symbol (stocks p)).

(** No close of the series compares below the close before it. *)
Fixpoint never_falls_after (prev : float) (closes : list float) : Prop :=
  match closes with
  | [] => True
  | c :: rest => fltb c prev = false /\ never_falls_after c rest
  end.

Definition never_falls (closes : list float) : Prop :=
  match closes with
  | [] => True
  | c :: rest => never_falls_after c rest
  end.

(** What the loop of [fetch_and_update_portfolio] has established for
    the stocks [l] once the fetched stocks [processed] are dealt with,
    [l0] being the stocks the call started from: a stock whose symbol was
    not fetched is as it was, a stock whose symbol was fetched has been
    refreshed from the fetched stock of that symbol. *)
Definition refresh_inv (l0 l processed : list Stock) : Prop :=
  forall i s, l0 !! i = Some s ->
    ((symbol s ∉ map symbol processed) /\ l !! i = Some s) \/
    (exists u t, u ∈ processed /\ symbol u = symbol s /\
                 l !! i = Some (refresh_price t s u)).

(** Text all of whose characters are ASCII (code below 128): the text
    on which [upper], [lower] and [strip] are the methods of [str]. *)
Definition is_ascii (c : ascii) : bool := (nat_of_ascii c <? 128)%nat.

Fixpoint ascii_text (s : string) : bool :=
  match s with
  | EmptyString => true
  | String c s' => is_ascii c && ascii_text s'
  end.

(** The strings of [l] are pairwise different. *)
Fixpoint distinct (l : list string) : bool :=
  match l with
  | [] => true
  | x :: rest => negb (existsb (String.eqb x) rest) && distinct rest
  end.

(** The symbol [s] is ASCII text in upper case without white space at
    its ends, and [rechercher_action] maps it to itself. *)
Definition settled (s : string) : bool :=
  ascii_text s && String.eqb (upper s) s && String.eqb (strip s) s &&
  match rechercher_action s with
  | Some s' => String.eqb s' s
  | None => false
  end.



(** A value that is not below zero: a finite number at or above zero, or
    the positive infinity of an overflow. *)
Definition at_least_zero (x : float) : Prop :=
  match x with
  | Fin a => (0 <= a)%Q
  | PInf => True
  | _ => False
  end.

(** A value that is not above zero. *)
Definition at_most_zero (x : float) : Prop :=
  match x with
  | Fin a => (a <= 0)%Q
  | NInf => True
  | _ => False
  end.

(** A value above zero, the positive infinity included. *)
Definition above_zero (x : float) : Prop :=
  match x with
  | Fin a => (0 < a)%Q
  | PInf => True
  | _ => False
  end.

(** *** Sample data *)

Definition bar_of (close : Z) : Bar :=
  mkBar 0 (lit 0) (lit 0) (lit 0) (lit close) 0.

Definition frame_of (closes : list Z) : option DataFrame :=
  Some (map bar_of closes).

Definition quote (sym : string) (current opening : Z) : Stock :=
  mkStock sym sym (Some (lit current)) (Some (lit opening)) None None None None.

Definition demo_source : Source := fun sym =>
  if String.eqb sym "aapl" then
    Some (mkTickerInfo (Some "Apple Inc."%string) None (Some (lit 150)) None
            (Some (lit 148)) None None None None None None None None None)
  else if String.eqb sym "MSFT" then
    Some (mkTickerInfo None (Some "Microsoft"%string) (Some (lit 300)) None
            None (Some (lit 310)) None None None None (Some 7) None None None)
  else if String.eqb sym "NOPRICE" then
    Some (mkTickerInfo (Some "No price"%string) None None (Some (lit 1)) None
            None None None None None None None None None)
  else None.

Definition demo_symbols : list string :=
  ["aapl"; "BAD"; "MSFT"; "NOPRICE"]%string.

(** A clock that advances by one at every fetch. *)
Definition demo_clock : Clock := fun k => 1000 + Z.of_nat k.

(* ===================================================================== *)
(** ** Stock: update_price *)
(* ===================================================================== *)

(** C9.  [update_price] sets [current_price] to the new price whatever it
    is, overwrites each of [opening_price], [highest_price],
    [lowest_price] and [volume] exactly when its argument is not [None]
    and keeps the old value otherwise, stamps [last_update] with the
    reading of the clock, and leaves [symbol] and [name] as they were. *)
Theorem update_price_effect :
  forall (now : datetime) (s : Stock) (new_price : float)
         (opening high low : option float) (vol : option Z),
    let s' := update_price now s new_price opening high low vol in
    current_price s' = Some new_price /\
    opening_price s' =
      match opening with Some v => Some v | None => opening_price s end /\
    highest_price s' =
      match high with Some v => Some v | None => highest_price s end /\
    lowest_price s' =
      match low with Some v => Some v | None => lowest_price s end /\
    volume s' = match vol with Some v => Some v | None => volume s end /\
    last_update s' = Some now /\
    symbol s' = symbol s /\
    name s' = name s.
Proof.
  intros now s new_price opening high low vol.
  destruct opening, high, low, vol; cbn; repeat split; reflexivity.
Qed.

(* ===================================================================== *)
(** ** Portfolio: add_stock and get_stock *)
(* ===================================================================== *)

Lemma upper_ascii_idempotent (c : ascii) :
  upper_ascii (upper_ascii c) = upper_ascii c.
Proof. destruct c as [[] [] [] [] [] [] [] []]; reflexivity. Qed.

Lemma upper_idempotent (s : string) : upper (upper s) = upper s.
Proof.
  induction s as [|c s IH]; cbn; [reflexivity|].
  now rewrite upper_ascii_idempotent, IH.
Qed.

Lemma new_Stock_canonical (sym nm : string) : canonical (new_Stock sym nm).
Proof. unfold canonical; cbn. symmetry; apply upper_idempotent. Qed.

Lemma update_price_canonical now s p o h l v :
  canonical s -> canonical (update_price now s p o h l v).
Proof.
  unfold canonical. intros H.
  assert (E : symbol (update_price now s p o h l v) = symbol s) by (destruct o, h, l, v; reflexivity).
  now rewrite E.
Qed.

Lemma first_with_symbol_none (sym : string) (l : list Stock) :
  first_with_symbol sym l = None <-> (forall s, s ∈ l -> symbol s <> sym).
Proof.
  induction l as [|x l IH]; cbn.
  - split; [intros _ s Hs; inversion Hs | reflexivity].
  - destruct (String.eqb (symbol x) sym) eqn:E.
    + apply String.eqb_eq in E. split; [discriminate|].
      intros H. exfalso. apply (H x); [left | exact E].
    + apply String.eqb_neq in E. rewrite IH. split.
      * intros H s Hs. apply elem_of_cons in Hs as [-> | Hs]; auto.
      * intros H s Hs. apply H. now right.
Qed.

Lemma first_with_symbol_some (sym : string) (l : list Stock) (s : Stock) :
  first_with_symbol sym l = Some s -> s ∈ l /\ symbol s = sym.
Proof.
  induction l as [|x l IH]; cbn; [discriminate|].
  destruct (String.eqb (symbol x) sym) eqn:E.
  - intros [= <-]. apply String.eqb_eq in E. split; [left | exact E].
  - intros H. destruct (IH H) as [Hin Hs]. split; [now right | exact Hs].
Qed.

(** C6.  On a portfolio whose stocks carry upper-case symbols (as
    [Stock.__init__] stores them), [add_stock] refuses a quote whose
    symbol equals, up to case, the symbol of a stock already held: it
    returns [False] and the portfolio is unchanged.  For a quote whose
    symbol is not held it returns [True] and the quote is appended at the
    end of the list, the stocks already held keeping their order. *)
Theorem add_stock_duplicate_or_append :
  forall (p : Portfolio) (q : Stock),
    Forall canonical (stocks p) ->
    ((exists s, s ∈ stocks p /\ upper (symbol s) = upper (symbol q)) ->
       add_stock p q = (false, p)) /\
    ((forall s, s ∈ stocks p -> upper (symbol s) <> upper (symbol q)) ->
       add_stock p q =
         (true, {| portfolio_name := portfolio_name p;
                   stocks := stocks p ++ [q] |})).
Proof.
  intros p q Hcan. unfold add_stock, get_stock.
  rewrite Forall_forall in Hcan.
  split.
  - intros (s & Hin & Heq).
    destruct (first_with_symbol (upper (symbol q)) (stocks p)) eqn:E;
      [reflexivity|].
    exfalso. rewrite first_with_symbol_none in E.
    apply (E s Hin). rewrite (Hcan s Hin). exact Heq.
  - intros Hno.
    destruct (first_with_symbol (upper (symbol q)) (stocks p)) eqn:E;
      [|reflexivity].
    exfalso. apply first_with_symbol_some in E as [Hin Hs].
    apply (Hno s Hin). rewrite Hs. apply upper_idempotent.
Qed.

Lemma add_stock_duplicate_or_append_witness :
  add_stock (mkPortfolio "P" [quote "AAPL" 110 100; quote "MSFT" 5 4])
            (new_Stock "aapl" "Apple")
  = (false, mkPortfolio "P" [quote "AAPL" 110 100; quote "MSFT" 5 4]) /\
  add_stock (mkPortfolio "P" [quote "AAPL" 110 100; quote "MSFT" 5 4])
            (new_Stock "goog" "Google")
  = (true, mkPortfolio "P" [quote "AAPL" 110 100; quote "MSFT" 5 4;
                            new_Stock "goog" "Google"]).
Proof.
  assert (Hcan : Forall canonical
            (stocks (mkPortfolio "P" [quote "AAPL" 110 100; quote "MSFT" 5 4]))).
  { repeat constructor. }
  split.
  - apply (add_stock_duplicate_or_append _ (new_Stock "aapl" "Apple") Hcan).
    exists (quote "AAPL" 110 100). split; [left | reflexivity].
  - apply (add_stock_duplicate_or_append _ (new_Stock "goog" "Google") Hcan).
    intros s Hs. cbn in Hs.
    apply elem_of_cons in Hs as [-> | Hs]; [discriminate|].
    apply elem_of_cons in Hs as [-> | Hs]; [discriminate|].
    inversion Hs.
Defined.

(* ===================================================================== *)
(** ** Series operations *)
(* ===================================================================== *)

Lemma length_shift (xs : list float) : length (shift xs) = length xs.
Proof.
  destruct xs as [|x xs]; [reflexivity|].
  unfold shift. rewrite removelast_firstn_len. cbn [length]. rewrite length_take. cbn. lia.
Qed.

Lemma length_rowwise f (xs ys : list float) :
  length xs = length ys -> length (rowwise f xs ys) = length xs.
Proof.
  revert ys. induction xs as [|x xs IH]; intros [|y ys]; cbn; try lia.
  intros H. f_equal. apply IH. lia.
Qed.

Lemma length_diff (xs : list float) : length (diff xs) = length xs.
Proof. unfold diff. apply length_rowwise. symmetry; apply length_shift. Qed.

Lemma length_gains_of xs : length (gains_of xs) = length xs.
Proof. unfold gains_of, where_. apply length_map. Qed.

Lemma length_losses_of xs : length (losses_of xs) = length xs.
Proof. unfold losses_of, where_. now rewrite !length_map. Qed.

Lemma iloc_last_rolling_mean (window : nat) (xs : list float) :
  xs <> [] -> iloc_last (rolling_mean window xs) = window_mean window xs.
Proof.
  intros Hne. unfold iloc_last, rolling_mean.
  destruct (length xs) as [|m] eqn:Hlen.
  - destruct xs; [congruence | discriminate].
  - rewrite seq_S, map_app. cbn [map]. rewrite last_last. cbn [Nat.add].
    rewrite <- Hlen. now rewrite firstn_all.
Qed.

Lemma length_observations_le xs : (length (observations xs) <= length xs)%nat.
Proof. unfold observations. apply filter_length_le. Qed.

Lemma length_trailing n xs : length (trailing n xs) = Nat.min n (length xs).
Proof. unfold trailing. rewrite length_skipn. lia. Qed.

Lemma window_mean_short (window : nat) (xs : list float) :
  (length xs < window)%nat -> window_mean window xs = NaN.
Proof.
  intros H. unfold window_mean.
  pose proof (length_observations_le (trailing window xs)) as Hle.
  rewrite length_trailing in Hle.
  destruct (window <=? length (observations (trailing window xs)))%nat eqn:E;
    [|reflexivity].
  apply Nat.leb_le in E. lia.
Qed.

(* ===================================================================== *)
(** ** Arithmetic facts *)
(* ===================================================================== *)

Lemma Qlt_bool_iff (a b : Q) : Qlt_bool a b = true <-> (a < b)%Q.
Proof.
  unfold Qlt_bool. rewrite negb_true_iff, <- not_true_iff_false, Qle_bool_iff.
  split; [apply Qnot_le_lt | apply Qlt_not_le].
Qed.

Lemma Qlt_bool_false (a b : Q) : Qlt_bool a b = false <-> (b <= a)%Q.
Proof.
  unfold Qlt_bool. rewrite negb_false_iff. apply Qle_bool_iff.
Qed.

Lemma Qeq_bool_false (a b : Q) : Qeq_bool a b = false <-> ~ (a == b)%Q.
Proof.
  rewrite <- not_true_iff_false, Qeq_bool_iff. reflexivity.
Qed.

Lemma is_zero_nonneg x : is_zero x -> nonneg x.
Proof. destruct x; cbn; try tauto. intros ->. apply Qle_refl. Qed.

Lemma fold_fadd_zero (xs : list float) (acc : float) :
  is_zero acc -> Forall is_zero xs -> is_zero (fold_left fadd xs acc).
Proof.
  revert acc. induction xs as [|x xs IH]; intros acc Ha Hxs; [exact Ha|].
  inversion Hxs as [|? ? Hx Hrest]; subst. cbn. apply IH; [|exact Hrest].
  destruct acc, x; cbn in *; try tauto. rewrite Ha, Hx. reflexivity.
Qed.

Lemma fold_fadd_nonneg (xs : list float) (acc : float) :
  nonneg acc -> Forall nonneg xs -> nonneg (fold_left fadd xs acc).
Proof.
  revert acc. induction xs as [|x xs IH]; intros acc Ha Hxs; [exact Ha|].
  inversion Hxs as [|? ? Hx Hrest]; subst. cbn. apply IH; [|exact Hrest].
  destruct acc, x; cbn in *; try tauto.
  lra.
Qed.

Lemma observations_nonneg (xs : list float) :
  Forall nonneg xs -> observations xs = xs.
Proof.
  induction 1 as [|x xs Hx _ IH]; [reflexivity|].
  unfold observations in *. cbn. destruct x; cbn in *; try tauto.
  now rewrite IH.
Qed.

Lemma Forall_trailing (P : float -> Prop) n xs :
  Forall P xs -> Forall P (trailing n xs).
Proof. unfold trailing. apply Forall_drop. Qed.

Lemma Q_of_nat_pos (n : nat) : (1 <= n)%nat -> (0 < inject_Z (Z.of_nat n))%Q.
Proof.
  intros H. unfold Qlt. cbn. lia.
Qed.

(** The mean over a full window of values that are not negative (none of
    them missing) is a number that is not negative. *)
Lemma window_mean_full (window : nat) (xs : list float) :
  (1 <= window <= length xs)%nat -> Forall nonneg xs ->
  exists s, nonneg (Fin s) /\ fsum (trailing window xs) = Fin s /\
            window_mean window xs
            = Fin (s / inject_Z (Z.of_nat window)).
Proof.
  intros [H1 H2] Hxs. unfold window_mean.
  pose proof (Forall_trailing nonneg window xs Hxs) as Ht.
  rewrite (observations_nonneg _ Ht), length_trailing.
  replace (Nat.min window (length xs)) with window by lia.
  replace ((window <=? window)%nat && (0 <? window)%nat) with true.
  2:{ symmetry. apply andb_true_iff. split;
      [apply Nat.leb_le; lia | apply Nat.ltb_lt; lia]. }
  assert (Hs : nonneg (fsum (trailing window xs))).
  { apply fold_fadd_nonneg; [cbn; apply Qle_refl | exact Ht]. }
  destruct (fsum (trailing window xs)) as [| |s|] eqn:E; cbn in Hs; try tauto.
  exists s. split; [exact Hs|]. split; [reflexivity|].
  unfold float_of_nat, lit, fdiv.
  pose proof (Q_of_nat_pos window H1) as Hpos.
  destruct (Qeq_bool (inject_Z (Z.of_nat window)) 0) eqn:Ez; [|reflexivity].
  apply Qeq_bool_iff in Ez. rewrite Ez in Hpos. now apply Qlt_irrefl in Hpos.
Qed.

Lemma window_mean_zero (window : nat) (xs : list float) :
  (1 <= window <= length xs)%nat -> Forall is_zero xs ->
  feqb (window_mean window xs) (lit 0) = true.
Proof.
  intros Hw Hxs.
  assert (Hnn : Forall nonneg xs).
  { eapply Forall_impl; [exact Hxs | apply is_zero_nonneg]. }
  destruct (window_mean_full window xs Hw Hnn) as (s & _ & Hsum & ->).
  assert (Hz : is_zero (fsum (trailing window xs))).
  { apply fold_fadd_zero; [cbn; reflexivity | now apply Forall_trailing]. }
  rewrite Hsum in Hz. cbn in Hz. cbn. apply Qeq_bool_iff.
  rewrite Hz. unfold Qdiv. apply Qmult_0_l.
Qed.

(* ===================================================================== *)
(** ** RSI *)
(* ===================================================================== *)

Lemma Close_column_nonempty (data : option DataFrame) :
  no_data data = false -> Close_column (frame data) <> [].
Proof. destruct data as [[|b d]|]; cbn; congruence. Qed.

Lemma avg_gain_of_window (data : option DataFrame) (period : nat) :
  no_data data = false ->
  avg_gain_of (frame data) period
  = window_mean period (gains_of (diff (Close_column (frame data)))).
Proof.
  intros H. unfold avg_gain_of. apply iloc_last_rolling_mean.
  intros E. apply (f_equal (@length float)) in E.
  rewrite length_gains_of, length_diff in E.
  apply (Close_column_nonempty data H). now destruct (Close_column (frame data)).
Qed.

Lemma avg_loss_of_window (data : option DataFrame) (period : nat) :
  no_data data = false ->
  avg_loss_of (frame data) period
  = window_mean period (losses_of (diff (Close_column (frame data)))).
Proof.
  intros H. unfold avg_loss_of. apply iloc_last_rolling_mean.
  intros E. apply (f_equal (@length float)) in E.
  rewrite length_losses_of, length_diff in E.
  apply (Close_column_nonempty data H). now destruct (Close_column (frame data)).
Qed.

(** *** A flat series *)

Lemma removelast_replicate (n : nat) (c : float) :
  removelast (replicate (S n) c) = replicate n c.
Proof.
  induction n as [|n IH]; [reflexivity|].
  change (replicate (S (S n)) c) with (c :: replicate (S n) c).
  cbn [removelast]. rewrite IH. reflexivity.
Qed.

Lemma rowwise_replicate f (n : nat) (a b : float) :
  rowwise f (replicate n a) (replicate n b) = replicate n (f a b).
Proof. induction n as [|n IH]; cbn; [reflexivity | now rewrite IH]. Qed.

Lemma diff_replicate (n : nat) (c : float) :
  diff (replicate (S n) c) = fsub c NaN :: replicate n (fsub c c).
Proof.
  unfold diff, shift.
  change (replicate (S n) c) with (c :: replicate n c) at 1 2.
  rewrite removelast_replicate. cbn [rowwise].
  now rewrite rowwise_replicate.
Qed.

Lemma gain_of_flat_step (c d : float) :
  d = fsub c NaN \/ d = fsub c c ->
  is_zero (if fgtb d (lit 0) then d else lit 0) /\
  is_zero (fneg (if fltb d (lit 0) then d else lit 0)).
Proof.
  intros [-> | ->]; destruct c as [| |a|]; try (cbn; split; reflexivity).
  assert (G : Qlt_bool (inject_Z 0) (a + - a) = false)
    by (apply Qlt_bool_false; change (inject_Z 0) with 0%Q; lra).
  assert (L : Qlt_bool (a + - a) (inject_Z 0) = false)
    by (apply Qlt_bool_false; change (inject_Z 0) with 0%Q; lra).
  unfold fgtb, fsub, fneg, fadd, fltb, lit. rewrite G, L.
  split; reflexivity.
Qed.

Lemma flat_column (data : DataFrame) (c : float) :
  Forall (fun b => Close b = c) data ->
  Close_column data = replicate (length data) c.
Proof.
  induction 1 as [|b d Hb _ IH]; [reflexivity|].
  cbn. unfold Close_column in IH. now rewrite Hb, IH.
Qed.

Lemma flat_gains_losses (n : nat) (c : float) :
  Forall is_zero (gains_of (diff (replicate n c))) /\
  Forall is_zero (losses_of (diff (replicate n c))).
Proof.
  destruct n as [|n]; [split; constructor|].
  rewrite diff_replicate. unfold gains_of, losses_of, where_.
  rewrite map_map.
  split; apply Forall_map, Forall_forall; intros d Hd;
    apply (gain_of_flat_step c d);
    (apply elem_of_cons in Hd as [-> | Hd];
     [left; reflexivity | right; now apply elem_of_replicate in Hd as [-> _]]).
Qed.

(** On a non-empty series with fewer than [period] bars no rolling window
    is full: both averages are NaN, the test [avg_loss == 0] fails, and
    the formula gives NaN. *)
Lemma rsi_short (data : option DataFrame) (period : nat) :
  no_data data = false ->
  (length (frame data) < period)%nat ->
  calculate_rsi data period = Some NaN.
Proof.
  intros Hdata Hlen. unfold calculate_rsi. rewrite Hdata.
  rewrite (avg_gain_of_window data period Hdata),
          (avg_loss_of_window data period Hdata).
  assert (Hcol : length (Close_column (frame data)) = length (frame data))
    by (unfold Close_column; apply length_map).
  rewrite (window_mean_short period (gains_of _)),
          (window_mean_short period (losses_of _)); [reflexivity| |].
  - now rewrite length_losses_of, length_diff, Hcol.
  - now rewrite length_gains_of, length_diff, Hcol.
Qed.

(** C1, as amended.  Whenever the average loss over the trailing 14 bars
    compares equal to zero, [calculate_rsi] returns exactly 100.  A
    series of at least 14 bars whose closes are all the same is such a
    series: its average gain and its average loss are both zero, and its
    RSI is 100.  A series of fewer than 14 bars, its closes equal or not,
    has no trailing average: the result is NaN. *)
Theorem rsi_100_when_avg_loss_zero :
  forall (data : option DataFrame),
    no_data data = false ->
    (feqb (avg_loss_of (frame data) 14) (lit 0) = true ->
       calculate_rsi data 14 = Some (lit 100)) /\
    (forall c : float,
       (14 <= length (frame data))%nat ->
       Forall (fun b => Close b = c) (frame data) ->
       feqb (avg_gain_of (frame data) 14) (lit 0) = true /\
       feqb (avg_loss_of (frame data) 14) (lit 0) = true /\
       calculate_rsi data 14 = Some (lit 100)) /\
    ((length (frame data) < 14)%nat ->
       calculate_rsi data 14 = Some NaN).
Proof.
  intros data Hdata.
  assert (Hrsi : feqb (avg_loss_of (frame data) 14) (lit 0) = true ->
                 calculate_rsi data 14 = Some (lit 100)).
  { intros H. unfold calculate_rsi. now rewrite Hdata, H. }
  split; [exact Hrsi|].
  split; [|now apply rsi_short].
  intros c Hlen Hflat.
  assert (Hloss : feqb (avg_loss_of (frame data) 14) (lit 0) = true).
  { rewrite (avg_loss_of_window data 14 Hdata), (flat_column _ c Hflat).
    apply window_mean_zero; [|apply flat_gains_losses].
    rewrite length_losses_of, length_diff, length_replicate. lia. }
  split; [|split; [exact Hloss | exact (Hrsi Hloss)]].
  rewrite (avg_gain_of_window data 14 Hdata), (flat_column _ c Hflat).
  apply window_mean_zero; [|apply flat_gains_losses].
  rewrite length_gains_of, length_diff, length_replicate. lia.
Qed.

Lemma rsi_100_when_avg_loss_zero_witness :
  calculate_rsi (frame_of [1; 2; 3; 4; 5; 6; 7; 8; 9; 10; 11; 12; 13; 14; 15]) 14
  = Some (lit 100) /\
  calculate_rsi (frame_of (replicate 14 7)) 14 = Some (lit 100) /\
  calculate_rsi (frame_of (replicate 13 7)) 14 = Some NaN.
Proof.
  split; [|split].
  - apply (proj1 (rsi_100_when_avg_loss_zero
             (frame_of [1; 2; 3; 4; 5; 6; 7; 8; 9; 10; 11; 12; 13; 14; 15])
             eq_refl)).
    vm_compute. reflexivity.
  - apply (proj1 (proj2 (rsi_100_when_avg_loss_zero
                           (frame_of (replicate 14 7)) eq_refl)) (lit 7)).
    + cbn. lia.
    + repeat constructor.
  - apply (proj2 (proj2 (rsi_100_when_avg_loss_zero
                           (frame_of (replicate 13 7)) eq_refl))).
    cbn. lia.
Defined.

(** C1, as the specification states it, fails on short series: five bars
    with equal closes have no trailing 14-bar average, and the result is
    NaN, not 100. *)
Lemma rsi_of_short_flat_series :
  ~ (forall (data : option DataFrame) (c : float),
       no_data data = false ->
       Forall (fun b => Close b = c) (frame data) ->
       calculate_rsi data 14 = Some (lit 100)).
Proof.
  intros H.
  specialize (H (frame_of (replicate 5 7)) (lit 7) eq_refl).
  assert (E : calculate_rsi (frame_of (replicate 5 7)) 14 = Some NaN)
    by (apply rsi_short; [reflexivity | cbn; lia]).
  rewrite E in H. discriminate H. repeat constructor.
Qed.

(** *** Short and long series *)

Lemma Close_column_finite (data : DataFrame) :
  Forall (fun b => is_finite (Close b)) data ->
  Forall is_finite (Close_column data).
Proof. intros H. unfold Close_column. now apply Forall_map. Qed.

(** C2, as amended.  On a non-empty series with fewer than [period] bars
    (not [period + 1]), [calculate_rsi] returns NaN, the missing-value
    marker of pandas: not an exception and not a number; so a number is
    returned only on a series of at least [period] bars.  [None] is
    returned exactly when the series is missing or empty. *)
Theorem rsi_defined_from_period_bars :
  forall (data : option DataFrame) (period : nat),
    (calculate_rsi data period = None <-> no_data data = true) /\
    (no_data data = false ->
     (length (frame data) < period)%nat ->
     calculate_rsi data period = Some NaN) /\
    (forall q : Q,
       calculate_rsi data period = Some (Fin q) ->
       (period <= length (frame data))%nat).
Proof.
  intros data period.
  assert (Hnone : calculate_rsi data period = None <-> no_data data = true).
  { unfold calculate_rsi. destruct (no_data data); [tauto|].
    split; [|discriminate]. destruct (feqb _ _); discriminate. }
  split; [exact Hnone|]. split; [apply rsi_short|].
  intros q Hq.
  destruct (no_data data) eqn:Hdata.
  - rewrite (proj2 Hnone eq_refl) in Hq. discriminate Hq.
  - destruct (Nat.le_gt_cases period (length (frame data))) as [H | H];
      [exact H|].
    rewrite (rsi_short data period Hdata H) in Hq. discriminate Hq.
Qed.

(** C2, as the specification states it, fails: with exactly [period]
    bars (here 14 bars and [period = 14], fewer than [period + 1]) the
    result is a number, not an absent value. *)
Lemma rsi_numeric_with_period_bars :
  ~ (forall (data : option DataFrame) (period : nat),
       no_data data = false ->
       (length (frame data) < period + 1)%nat ->
       absent (calculate_rsi data period)).
Proof.
  intros H.
  specialize (H (frame_of (replicate 14 7)) 14%nat eq_refl).
  destruct H as [H | H]; [cbn; lia | |]; vm_compute in H; discriminate H.
Qed.

(* ===================================================================== *)
(** ** Trading signal *)
(* ===================================================================== *)

Lemma signal_unknown_iff (data : option DataFrame) :
  get_simple_signal data = "INCONNU"%string <-> calculate_rsi data 14 = None.
Proof.
  unfold get_simple_signal.
  destruct (calculate_rsi data 14) as [rsi|]; [|tauto].
  split; [|discriminate].
  destruct (fltb rsi (lit 30)); [discriminate|].
  destruct (fgtb rsi (lit 70)); discriminate.
Qed.

Lemma rsi_none_iff (data : option DataFrame) (period : nat) :
  calculate_rsi data period = None <-> no_data data = true.
Proof.
  unfold calculate_rsi. destruct (no_data data); [tauto|].
  split; [|discriminate].
  destruct (feqb _ _); discriminate.
Qed.

(** On every non-empty series of fewer than 14 bars the RSI is NaN and
    the signal is ATTENDRE (hold), not INCONNU (unknown). *)
Lemma signal_on_short_series (data : option DataFrame) :
  no_data data = false -> (length (frame data) < 14)%nat ->
  calculate_rsi data 14 = Some NaN /\
  get_simple_signal data = "ATTENDRE"%string.
Proof.
  intros Hdata Hlen. pose proof (rsi_short data 14 Hdata Hlen) as E.
  split; [exact E|]. unfold get_simple_signal. now rewrite E.
Qed.

(** The signal as a function of a defined RSI. *)
Lemma signal_of_rsi (data : option DataFrame) (q : Q) :
  calculate_rsi data 14 = Some (Fin q) ->
  ((q < 30)%Q -> get_simple_signal data = "ACHETER"%string) /\
  ((70 < q)%Q -> get_simple_signal data = "VENDRE"%string) /\
  ((30 <= q <= 70)%Q -> get_simple_signal data = "ATTENDRE"%string).
Proof.
  intros E. unfold get_simple_signal. rewrite E. unfold fgtb, fltb, lit.
  change (inject_Z 30) with 30%Q. change (inject_Z 70) with 70%Q.
  repeat split.
  - intros H. apply Qlt_bool_iff in H. now rewrite H.
  - intros H.
    assert (H30 : Qlt_bool q 30 = false) by (apply Qlt_bool_false; lra).
    apply Qlt_bool_iff in H. now rewrite H30, H.
  - intros [H1 H2].
    assert (H30 : Qlt_bool q 30 = false) by (now apply Qlt_bool_false).
    assert (H70 : Qlt_bool 70 q = false) by (now apply Qlt_bool_false).
    now rewrite H30, H70.
Qed.

(** C3, at a series of five bars: the RSI over 14 bars is undefined (NaN)
    and [get_simple_signal] answers ATTENDRE, where INCONNU is specified. *)
Theorem signal_hold_on_undefined_rsi :
  no_data (frame_of [3; 1; 4; 1; 5]) = false /\
  calculate_rsi (frame_of [3; 1; 4; 1; 5]) 14 = Some NaN /\
  get_simple_signal (frame_of [3; 1; 4; 1; 5]) = "ATTENDRE"%string.
Proof. vm_compute. repeat split. Qed.

(* ===================================================================== *)
(** ** Guards on divisions *)
(* ===================================================================== *)

(** The zero test of [get_variation] comes before its division: with
    Python's raising division the call never raises, and returns what
    [get_variation] returns. *)
Lemma get_variation_never_raises (s : Stock) :
  get_variation_checked s = Return (get_variation s).
Proof.
  unfold get_variation_checked, get_variation, py_truediv.
  destruct (current_price s) as [c|]; [|reflexivity].
  destruct (opening_price s) as [o|]; [|reflexivity].
  destruct (feqb o (lit 0)); reflexivity.
Qed.

(** In [calculate_rsi] the division by the average loss is reached only
    when the average loss does not compare equal to zero. *)
Lemma rsi_division_guarded (data : option DataFrame) (period : nat) :
  no_data data = false ->
  feqb (avg_loss_of (frame data) period) (lit 0) = true ->
  calculate_rsi data period = Some (lit 100).
Proof. intros H E. unfold calculate_rsi. now rewrite H, E. Qed.

(** Whenever the first close is zero (and the last close a number), the
    division of [calculate_price_change] is carried out all the same and
    its result is not a number: an infinity, or NaN. *)
Lemma price_change_unguarded (data : option DataFrame) (pc : PriceChange) :
  calculate_price_change data = Some pc ->
  is_zero (prix_debut pc) -> is_finite (prix_fin pc) ->
  ~ is_finite (variation_pct pc).
Proof.
  unfold calculate_price_change. destruct (no_data data); [discriminate|].
  intros [= <-]. cbn [prix_debut prix_fin variation_pct].
  destruct (iloc_first _) as [| |a|]; cbn [is_zero]; try tauto.
  destruct (iloc_last _) as [| |b|]; cbn [is_finite]; try tauto.
  intros Ha _. cbn [fsub fneg fadd fdiv].
  apply Qeq_bool_iff in Ha. rewrite Ha.
  destruct (Qsign (b + - a)); cbn; tauto.
Qed.

(** C7, at the series of closes 0 and 5, and at the series 0 and 0:
    [calculate_price_change] divides by the first close without testing
    it, and the percent change comes out as +inf, respectively NaN. *)
Theorem price_change_divides_by_zero_close :
  (prix_debut <$> calculate_price_change (frame_of [0; 5])) = Some (lit 0) /\
  (variation_pct <$> calculate_price_change (frame_of [0; 5])) = Some PInf /\
  (variation_pct <$> calculate_price_change (frame_of [0; 0])) = Some NaN.
Proof. repeat split. Qed.

(* ===================================================================== *)
(** ** Portfolio: best and worst performer *)
(* ===================================================================== *)

Lemma fltb_irrefl (x : float) : fltb x x = false.
Proof.
  destruct x as [| |a|]; cbn; try reflexivity.
  apply Qlt_bool_false, Qle_refl.
Qed.

Lemma fltb_trans (x y z : float) :
  fltb x y = true -> fltb y z = true -> fltb x z = true.
Proof.
  destruct x as [| |a|], y as [| |b|], z as [| |c|]; cbn;
    try discriminate; try reflexivity.
  rewrite !Qlt_bool_iff. apply Qlt_trans.
Qed.

Lemma feqb_fltb_r (x y z : float) :
  feqb x y = true -> fltb z x = fltb z y.
Proof.
  destruct x as [| |a|], y as [| |b|], z as [| |c|]; cbn;
    try discriminate; try reflexivity.
  intros E. apply Qeq_bool_iff in E.
  destruct (Qlt_bool c a) eqn:H1, (Qlt_bool c b) eqn:H2; try reflexivity.
  - apply Qlt_bool_iff in H1. apply Qlt_bool_false in H2. lra.
  - apply Qlt_bool_iff in H2. apply Qlt_bool_false in H1. lra.
Qed.

Lemma feqb_fltb_l (x y z : float) :
  feqb x y = true -> fltb x z = fltb y z.
Proof.
  destruct x as [| |a|], y as [| |b|], z as [| |c|]; cbn;
    try discriminate; try reflexivity.
  intros E. apply Qeq_bool_iff in E.
  destruct (Qlt_bool a c) eqn:H1, (Qlt_bool b c) eqn:H2; try reflexivity.
  - apply Qlt_bool_iff in H1. apply Qlt_bool_false in H2. lra.
  - apply Qlt_bool_iff in H2. apply Qlt_bool_false in H1. lra.
Qed.

Section Scan.

Variable better : float -> float -> bool.
Variable bound : float.

Hypothesis better_bound :
  forall w v, better w v = true -> better w bound = true.
Hypothesis better_chain :
  forall w v w', better w v = true -> better w' v = false ->
                 better w' w = false.
Hypothesis better_irrefl : forall w, better w w = false.
Hypothesis better_not_tied :
  forall w v w', better w v = true -> better w' v = false ->
                 feqb w' w = false.

Lemma scan_inv_start : scan_inv better bound [] (None, bound).
Proof.
  split; [|reflexivity]. intros j s w H. now rewrite lookup_nil in H.
Qed.

Lemma scan_inv_step (seen : list Stock) (acc : option Stock * float)
    (x : Stock) :
  scan_inv better bound seen acc ->
  scan_inv better bound (seen ++ [x]) (scan_step better acc x).
Proof.
  intros [Hmax Hsel]. unfold scan_step.
  destruct (get_variation x) as [w|] eqn:Ex.
  2:{ split.
      - intros j s w Hj Hs.
        apply lookup_snoc_Some in Hj as [[_ Hj] | [_ ->]];
          [eauto | congruence].
      - destruct (fst acc) as [b|]; [|exact Hsel].
        destruct Hsel as (i & Hi & Hv & Hb & Hfirst).
        exists i. split; [now apply lookup_app_l_Some|].
        repeat split; try assumption.
        intros j s w Hji Hj Hs.
        apply lookup_snoc_Some in Hj as [[_ Hj] | [-> ->]];
          [eauto | congruence]. }
  destruct (better w (snd acc)) eqn:Ew.
  - cbn [fst snd]. split.
    + intros j s w' Hj Hs.
      apply lookup_snoc_Some in Hj as [[_ Hj] | [_ ->]].
      * eapply better_chain; [exact Ew | eauto].
      * replace w' with w by congruence. apply better_irrefl.
    + exists (length seen). split; [apply list_lookup_middle; reflexivity|].
      split; [exact Ex|]. split; [eapply better_bound; exact Ew|].
      intros j s w' Hji Hj Hs.
      rewrite lookup_app_l in Hj by exact Hji.
      eapply better_not_tied; [exact Ew | eauto].
  - split.
    + intros j s w' Hj Hs.
      apply lookup_snoc_Some in Hj as [[_ Hj] | [_ ->]]; [eauto|].
      replace w' with w by congruence. exact Ew.
    + destruct (fst acc) as [b|]; [|exact Hsel].
      destruct Hsel as (i & Hi & Hv & Hb & Hfirst).
      exists i. split; [now apply lookup_app_l_Some|].
      repeat split; try assumption.
      intros j s w' Hji Hj Hs.
      apply lookup_lt_Some in Hi.
      rewrite lookup_app_l in Hj by lia. eauto.
Qed.

Lemma scan_inv_fold (l seen : list Stock) (acc : option Stock * float) :
  scan_inv better bound seen acc ->
  scan_inv better bound (seen ++ l) (fold_left (scan_step better) l acc).
Proof.
  revert seen acc. induction l as [|x l IH]; intros seen acc H; cbn.
  - now rewrite app_nil_r.
  - replace (seen ++ x :: l) with ((seen ++ [x]) ++ l)
      by (now rewrite <- app_assoc).
    apply IH. now apply scan_inv_step.
Qed.

(** The choice of the scan over a whole list. *)
Lemma scan_result (l : list Stock) :
  match fst (fold_left (scan_step better) l (None, bound)) with
  | Some b =>
      exists i v,
        l !! i = Some b /\ get_variation b = Some v /\
        better v bound = true /\
        (forall j s w, l !! j = Some s -> get_variation s = Some w ->
                       better w v = false) /\
        (forall j s w, (j < i)%nat -> l !! j = Some s ->
                       get_variation s = Some w -> feqb w v = false)
  | None =>
      forall s w, s ∈ l -> get_variation s = Some w ->
                  better w bound = false
  end.
Proof.
  pose proof (scan_inv_fold l [] (None, bound) scan_inv_start) as [Hmax Hsel].
  cbn [app] in *.
  destruct (fold_left (scan_step better) l (None, bound)) as [[b|] v];
    cbn [fst snd] in *.
  - destruct Hsel as (i & Hi & Hv & Hb & Hfirst). exists i, v. auto.
  - subst v. intros s w Hin Hs.
    apply list_elem_of_lookup in Hin as [j Hj]. eauto.
Qed.

End Scan.

Lemma best_step_scan : best_step = scan_step fgtb.
Proof. reflexivity. Qed.

Lemma worst_step_scan : worst_step = scan_step fltb.
Proof. reflexivity. Qed.

Lemma get_best_performer_fold (p : Portfolio) :
  get_best_performer p
  = fst (fold_left (scan_step fgtb) (stocks p) (None, NInf)).
Proof. unfold get_best_performer. now destruct (stocks p). Qed.

Lemma get_worst_performer_fold (p : Portfolio) :
  get_worst_performer p
  = fst (fold_left (scan_step fltb) (stocks p) (None, PInf)).
Proof. unfold get_worst_performer. now destruct (stocks p). Qed.

Lemma fgtb_bound w v : fgtb w v = true -> fgtb w NInf = true.
Proof. destruct w, v; cbn; congruence. Qed.

Lemma fltb_bound w v : fltb w v = true -> fltb w PInf = true.
Proof. destruct w, v; cbn; congruence. Qed.

Lemma fgtb_chain w v w' :
  fgtb w v = true -> fgtb w' v = false -> fgtb w' w = false.
Proof.
  unfold fgtb. intros H1 H2. destruct (fltb w w') eqn:E; [|reflexivity].
  rewrite (fltb_trans v w w' H1 E) in H2. discriminate.
Qed.

Lemma fltb_chain w v w' :
  fltb w v = true -> fltb w' v = false -> fltb w' w = false.
Proof.
  intros H1 H2. destruct (fltb w' w) eqn:E; [|reflexivity].
  rewrite (fltb_trans w' w v E H1) in H2. discriminate.
Qed.

Lemma fgtb_not_tied w v w' :
  fgtb w v = true -> fgtb w' v = false -> feqb w' w = false.
Proof.
  unfold fgtb. intros H1 H2. destruct (feqb w' w) eqn:E; [|reflexivity].
  rewrite (feqb_fltb_r w' w v E) in H2. congruence.
Qed.

Lemma fltb_not_tied w v w' :
  fltb w v = true -> fltb w' v = false -> feqb w' w = false.
Proof.
  intros H1 H2. destruct (feqb w' w) eqn:E; [|reflexivity].
  rewrite (feqb_fltb_l w' w v E) in H2. congruence.
Qed.

Lemma finite_in_range (q : Q) :
  fgtb (Fin q) NInf = true /\ fltb (Fin q) PInf = true.
Proof. split; reflexivity. Qed.

(** C5.  [get_best_performer] returns a stock of the portfolio whose
    variation [v] is a number that no variation in the portfolio exceeds,
    and no stock before it in the list has a variation equal to [v]: among
    tied stocks the one added first is returned.  [get_worst_performer]
    does the same with the least variation.  Stocks without a variation
    take no part.  Both return [None] when no stock has a variation (so
    on the empty portfolio), and a stock as soon as one stock has a finite
    variation. *)
Theorem best_and_worst_performer :
  forall p : Portfolio,
    match get_best_performer p with
    | Some b =>
        exists i v,
          stocks p !! i = Some b /\ get_variation b = Some v /\
          fgtb v NInf = true /\
          (forall j s w, stocks p !! j = Some s -> get_variation s = Some w ->
                         fgtb w v = false) /\
          (forall j s w, (j < i)%nat -> stocks p !! j = Some s ->
                         get_variation s = Some w -> feqb w v = false)
    | None =>
        forall s w, s ∈ stocks p -> get_variation s = Some w ->
                    fgtb w NInf = false
    end /\
    match get_worst_performer p with
    | Some b =>
        exists i v,
          stocks p !! i = Some b /\ get_variation b = Some v /\
          fltb v PInf = true /\
          (forall j s w, stocks p !! j = Some s -> get_variation s = Some w ->
                         fltb w v = false) /\
          (forall j s w, (j < i)%nat -> stocks p !! j = Some s ->
                         get_variation s = Some w -> feqb w v = false)
    | None =>
        forall s w, s ∈ stocks p -> get_variation s = Some w ->
                    fltb w PInf = false
    end /\
    (forall s q, s ∈ stocks p -> get_variation s = Some (Fin q) ->
                 is_Some (get_best_performer p) /\
                 is_Some (get_worst_performer p)) /\
    ((forall s, s ∈ stocks p -> get_variation s = None) ->
     get_best_performer p = None /\ get_worst_performer p = None).
Proof.
  intros p.
  pose proof (scan_result fgtb NInf fgtb_bound fgtb_chain
                (fun w => fltb_irrefl w) fgtb_not_tied (stocks p)) as Hbest.
  pose proof (scan_result fltb PInf fltb_bound fltb_chain
                fltb_irrefl fltb_not_tied (stocks p)) as Hworst.
  rewrite <- get_best_performer_fold in Hbest.
  rewrite <- get_worst_performer_fold in Hworst.
  split; [exact Hbest|]. split; [exact Hworst|]. split.
  - intros s q Hin Hs. split.
    + destruct (get_best_performer p); [eauto|].
      specialize (Hbest s (Fin q) Hin Hs). discriminate.
    + destruct (get_worst_performer p); [eauto|].
      specialize (Hworst s (Fin q) Hin Hs). discriminate.
  - intros Hnone. split.
    + destruct (get_best_performer p) as [b|]; [|reflexivity].
      destruct Hbest as (i & v & Hi & Hv & _).
      apply list_elem_of_lookup_2 in Hi. rewrite (Hnone b Hi) in Hv.
      discriminate.
    + destruct (get_worst_performer p) as [b|]; [|reflexivity].
      destruct Hworst as (i & v & Hi & Hv & _).
      apply list_elem_of_lookup_2 in Hi. rewrite (Hnone b Hi) in Hv.
      discriminate.
Qed.

(** Two stocks tied at +10 %, a third at -1 %, a fourth without opening
    price: the first of the tied stocks is the best performer. *)
Example performers_on_a_tie :
  let p := mkPortfolio "P"
             [quote "AAA" 110 100; quote "BBB" 220 200; quote "CCC" 99 100;
              new_Stock "DDD" "no prices"; quote "EEE" 99 100] in
  get_best_performer p = Some (quote "AAA" 110 100) /\
  get_worst_performer p = Some (quote "CCC" 99 100) /\
  get_best_performer (new_Portfolio "empty") = None /\
  get_worst_performer (mkPortfolio "Q" [new_Stock "DDD" "no prices"]) = None.
Proof. vm_compute. repeat split. Qed.

(* ===================================================================== *)
(** ** Rounding of the returned values *)
(* ===================================================================== *)




(** Rounding to the nearest integer moves a rational by at most 1/2. *)
Lemma round_half_even_close (x : Q) :
  (- (1 # 2) <= inject_Z (round_half_even x) - x <= 1 # 2)%Q.
Proof.
  destruct x as [n d]. unfold round_half_even. cbn [Qnum Qden].
  pose proof (Z.div_mod n (Z.pos d) ltac:(lia)) as Hdm.
  pose proof (Z.mod_pos_bound n (Z.pos d) ltac:(lia)) as Hr.
  set (f := n / Z.pos d) in *. set (r := n mod Z.pos d) in *.
  clearbody f r.
  assert (Hcases : forall z, (2 * Z.abs (z * Z.pos d - n) <= Z.pos d)%Z ->
            (- (1 # 2) <= inject_Z z - (n # d) <= 1 # 2)%Q).
  { intros z Hz. unfold Qle, Qminus, Qplus, Qopp, inject_Z. cbn.
    rewrite !Pos.mul_1_l. set (m := z * Z.pos d) in *. lia. }
  apply Hcases.
  destruct (Z.compare_spec (2 * r) (Z.pos d)) as [E | E | E];
    [destruct (Z.even f) | |]; lia.
Qed.




(** Prices 110 and 3 against openings 100 and 7: variations +10.00 and
    -57.14 (exactly -400/7), total 113.00, average -23.57. *)
Example rounded_values :
  let p := mkPortfolio "P" [quote "AAA" 110 100; quote "BBB" 3 7;
                            new_Stock "CCC" "no prices"] in
  map get_variation (stocks p)
  = [Some (Fin (1000 # 100)); Some (Fin (-5714 # 100)); None] /\
  get_total_value p = Fin (11300 # 100) /\
  get_average_variation p = Some (Fin (-2357 # 100)).
Proof. vm_compute. repeat split. Qed.

(* ===================================================================== *)
(** ** Volatility *)
(* ===================================================================== *)

Lemma observations_finite (xs : list float) :
  Forall is_finite xs -> observations xs = xs.
Proof.
  induction 1 as [|x xs Hx _ IH]; [reflexivity|].
  unfold observations in *. cbn. destruct x; cbn in *; try tauto.
  now rewrite IH.
Qed.

Lemma fdiv_fin (a b : Q) :
  Qeq_bool b 0 = false -> fdiv (Fin a) (Fin b) = Fin (a / b).
Proof. intros E. cbn. now rewrite E. Qed.




Section VolatilityFacts.

Variable np_sqrt : float -> float.
Hypothesis np_sqrt_nan : np_sqrt NaN = NaN.


End VolatilityFacts.




(** Closes 100, 110, 99: daily returns +10 % and -10 %, volatility
    sqrt(200) = 14.142135...; closes 1, 2, 0, 0: returns +100 %, -100 %
    and NaN, volatility sqrt(20000) = 141.421356.... *)
Example volatility_of_three_bars :
  calculate_daily_return (frame_of [100; 110; 99])
  = Some [NaN; Fin (1000 # 100); Fin (-1100 # 110)] /\
  calculate_volatility sqrt6 (frame_of [100; 110; 99])
  = Some (Fin (14142135 # 1000000)) /\
  calculate_volatility sqrt6 (frame_of [1; 2; 0; 0])
  = Some (Fin (141421356 # 1000000)) /\
  calculate_volatility sqrt6 (frame_of []) = None /\
  calculate_volatility sqrt6 None = None.
Proof. vm_compute. repeat split. Qed.

(* ===================================================================== *)
(** ** Sequential and concurrent batch fetch *)
(* ===================================================================== *)

Section Fetch.

Variable src : Source.

(** What a fetch creates does not depend on the clock, its timestamp
    apart. *)
Lemma create_stock_erase_time (now now' : datetime) (sym : string) :
  erase_time <$> create_stock_from_api src now sym
  = erase_time <$> create_stock_from_api src now' sym.
Proof.
  unfold create_stock_from_api.
  destruct (fetch_current_price src sym) as [data|]; reflexivity.
Qed.

Lemma create_stock_symbol (now : datetime) (sym : string) :
  symbol <$> create_stock_from_api src now sym
  = (fun _ => upper sym) <$> fetch_current_price src sym.
Proof.
  unfold create_stock_from_api.
  destruct (fetch_current_price src sym) as [data|] eqn:E; [|reflexivity].
  cbn. f_equal.
  assert (Hs : data_symbol data = upper sym).
  { unfold fetch_current_price in E.
    destruct (src sym) as [info|]; [|discriminate].
    destruct (currentPrice info); [|discriminate].
    now inversion E. }
  destruct (data_open data), (data_high data), (data_low data),
    (data_volume data); cbn; rewrite Hs; apply upper_idempotent.
Qed.

Lemma sync_fold (clock : Clock) (symbols : list string)
    (acc : list Stock) (k : nat) :
  map erase_time (fst (fold_left (sync_step src clock) symbols (acc, k)))
  = map erase_time acc ++ created src symbols.
Proof.
  revert acc k. induction symbols as [|sym symbols IH]; intros acc k.
  - cbn. now rewrite app_nil_r.
  - cbn [fold_left]. unfold sync_step at 2. cbn [fst snd].
    unfold created. cbn [omap list_omap].
    pose proof (create_stock_erase_time (clock k) 0 sym) as E.
    destruct (create_stock_from_api src (clock k) sym) as [stock|];
      destruct (create_stock_from_api src 0 sym) as [stock0|];
      cbn in E; try discriminate; rewrite IH.
    + apply (inj Some) in E. rewrite map_app, <- app_assoc. cbn.
      now rewrite E.
    + reflexivity.
Qed.

Lemma sync_created (clock : Clock) (symbols : list string) :
  map erase_time (fetch_multiple_stocks_sync src clock symbols)
  = created src symbols.
Proof. unfold fetch_multiple_stocks_sync. apply sync_fold. Qed.

(** The slots of [gather] after the completions of [schedule]: a slot
    outside the schedule is untouched, a slot in it holds the result of
    its task. *)
Lemma complete_fold (clock : Clock) (symbols : list string)
    (schedule : list nat) (slots : list (option gathered)) (k : nat) :
  let slots' :=
    fst (fold_left (complete src clock symbols) schedule (slots, k)) in
  length slots' = length slots /\
  (forall i, i ∉ schedule -> slots' !! i = slots !! i) /\
  (forall i sym, i ∈ schedule -> (i < length slots)%nat ->
                 symbols !! i = Some sym ->
                 exists t, slots' !! i
                           = Some (Some (fetch_one_stock_async src t sym))).
Proof.
  revert slots k. induction schedule as [|j schedule IH]; intros slots k.
  - cbn. split; [reflexivity|]. split; [reflexivity|].
    intros i sym Hi. inversion Hi.
  - cbn [fold_left].
    assert (Hstep : complete src clock symbols (slots, k) j
              = match symbols !! j with
                | Some sym =>
                    (<[j := Some (fetch_one_stock_async src (clock k) sym)]>
                       slots, S k)
                | None => (slots, k)
                end) by reflexivity.
    rewrite Hstep. clear Hstep.
    destruct (symbols !! j) as [symj|] eqn:Ej.
    + specialize (IH (<[j := Some (fetch_one_stock_async src (clock k) symj)]>
                        slots) (S k)).
      cbn zeta in IH. destruct IH as (Hlen & Hout & Hin).
      rewrite length_insert in Hlen, Hin.
      split; [exact Hlen|]. split.
      * intros i Hi. apply not_elem_of_cons in Hi as [Hij Hi].
        rewrite (Hout i Hi). now apply list_lookup_insert_ne.
      * intros i sym Hi Hlt Hsym.
        destruct (decide (i ∈ schedule)) as [Hs | Hs]; [now apply Hin|].
        apply elem_of_cons in Hi as [-> | Hi]; [|contradiction].
        rewrite (Hout j Hs), list_lookup_insert_eq by exact Hlt.
        replace sym with symj by congruence. eauto.
    + specialize (IH slots k). cbn zeta in IH.
      destruct IH as (Hlen & Hout & Hin).
      split; [exact Hlen|]. split.
      * intros i Hi. apply not_elem_of_cons in Hi as [_ Hi]. now apply Hout.
      * intros i sym Hi Hlt Hsym.
        apply elem_of_cons in Hi as [-> | Hi]; [congruence|].
        now apply Hin.
Qed.

Lemma all_done_filled (slots : list (option gathered)) :
  Forall is_Some slots ->
  exists results, all_done slots = Some results /\ slots = map Some results.
Proof.
  induction 1 as [|o slots [r ->] _ (rs & E & ->)].
  - now exists [].
  - exists (r :: rs). cbn. now rewrite E.
Qed.

Lemma kept_created (results : list gathered) (symbols : list string) :
  Forall2 (fun r sym => exists t, r = fetch_one_stock_async src t sym)
          results symbols ->
  map erase_time (omap keep_stock results) = created src symbols.
Proof.
  induction 1 as [|r sym results symbols [t ->] _ IH]; [reflexivity|].
  unfold created in *. cbn [omap list_omap].
  pose proof (create_stock_erase_time t 0 sym) as E.
  unfold fetch_one_stock_async, keep_stock at 1.
  destruct (create_stock_from_api src t sym) as [stock|];
    destruct (create_stock_from_api src 0 sym) as [stock0|];
    cbn in E; try discriminate.
  - apply (inj Some) in E. cbn. now rewrite IH, E.
  - exact IH.
Qed.

Lemma created_symbols (symbols : list string) :
  map symbol (created src symbols)
  = omap (fun sym => (fun _ => upper sym) <$> fetch_current_price src sym)
         symbols.
Proof.
  unfold created. induction symbols as [|sym symbols IH]; [reflexivity|].
  cbn [omap list_omap].
  pose proof (create_stock_symbol 0 sym) as E.
  destruct (create_stock_from_api src 0 sym) as [stock|];
    destruct (fetch_current_price src sym) as [data|];
    cbn in E; try discriminate; cbn.
  - apply (inj Some) in E. now rewrite IH, E.
  - exact IH.
Qed.

Lemma erase_time_created (symbols : list string) :
  map erase_time (created src symbols) = created src symbols.
Proof.
  unfold created. induction symbols as [|sym symbols IH]; [reflexivity|].
  cbn [omap list_omap].
  destruct (create_stock_from_api src 0 sym) as [stock|]; cbn; [|exact IH].
  f_equal. exact IH.
Qed.

(** C4.  Over one backing source, and whatever the order in which the
    concurrent tasks complete (every task completing once), the
    concurrent batch returns the stocks of the sequential batch: the
    same stocks up to their timestamps, hence the same symbols.  In
    both, the result holds one stock for each symbol the source has a
    current price for, in the order of the symbols, and nothing for the
    others: a failed fetch is left out and the batch goes on. *)
Theorem concurrent_fetch_matches_sequential :
  forall (clock clock' : Clock) (schedule : list nat)
         (symbols : list string),
    schedule ≡ₚ seq 0 (length symbols) ->
    exists fetched : list Stock,
      fetch_multiple_stocks src clock schedule symbols = Some fetched /\
      map erase_time fetched
      = map erase_time (fetch_multiple_stocks_sync src clock' symbols) /\
      map symbol fetched
      = map symbol (fetch_multiple_stocks_sync src clock' symbols) /\
      map symbol fetched
      = omap (fun sym =>
                (fun _ => upper sym) <$> fetch_current_price src sym)
             symbols.
Proof.
  intros clock clock' schedule symbols Hperm.
  unfold fetch_multiple_stocks, gather.
  destruct (complete_fold clock symbols schedule
              (replicate (length symbols) None) 0) as (Hlen & _ & Hin).
  set (slots := fst (fold_left (complete src clock symbols) schedule
                       (replicate (length symbols) None, 0%nat))) in *.
  rewrite length_replicate in Hlen, Hin.
  assert (Hfilled : forall i sym, symbols !! i = Some sym ->
            exists t, slots !! i
                      = Some (Some (fetch_one_stock_async src t sym))).
  { intros i sym Hsym. pose proof (lookup_lt_Some _ _ _ Hsym) as Hlt.
    apply Hin; [|exact Hlt | exact Hsym].
    rewrite Hperm. apply elem_of_seq. lia. }
  destruct (all_done_filled slots) as (results & Hdone & Hslots).
  { apply Forall_lookup. intros i o Ho.
    pose proof (lookup_lt_Some _ _ _ Ho) as Hlt. rewrite Hlen in Hlt.
    destruct (lookup_lt_is_Some_2 symbols i Hlt) as [sym Hsym].
    destruct (Hfilled i sym Hsym) as [t Ht].
    rewrite Ht in Ho. inversion Ho. eauto. }
  rewrite Hdone. eexists. split; [reflexivity|].
  assert (Hcreated : map erase_time (omap keep_stock results)
                     = created src symbols).
  { apply kept_created. apply Forall2_same_length_lookup_2.
    - rewrite <- Hlen, Hslots. now rewrite length_map.
    - intros i r sym Hr Hsym. destruct (Hfilled i sym Hsym) as [t Ht].
      rewrite Hslots, list_lookup_fmap, Hr in Ht. cbn in Ht.
      exists t. congruence. }
  assert (Hsym : forall l l' : list Stock,
            map erase_time l = map erase_time l' ->
            map symbol l = map symbol l').
  { intros l l' E. apply (f_equal (map symbol)) in E.
    rewrite !map_map in E. exact E. }
  rewrite Hcreated, sync_created. split; [reflexivity|]. split.
  - apply Hsym. now rewrite Hcreated, sync_created.
  - rewrite (Hsym _ (created src symbols)).
    + apply created_symbols.
    + rewrite Hcreated. symmetry. apply erase_time_created.
Qed.

End Fetch.

Lemma concurrent_fetch_matches_sequential_witness :
  exists fetched : list Stock,
    fetch_multiple_stocks demo_source demo_clock [2; 0; 3; 1]%nat demo_symbols
    = Some fetched /\
    map erase_time fetched
    = map erase_time
        (fetch_multiple_stocks_sync demo_source demo_clock demo_symbols) /\
    map symbol fetched
    = map symbol
        (fetch_multiple_stocks_sync demo_source demo_clock demo_symbols) /\
    map symbol fetched
    = omap (fun sym =>
              (fun _ => upper sym) <$> fetch_current_price demo_source sym)
           demo_symbols.
Proof.
  apply (concurrent_fetch_matches_sequential demo_source demo_clock demo_clock
           [2; 0; 3; 1]%nat demo_symbols).
  cbn. solve_Permutation.
Defined.

(** Four symbols, two of them without a quote; the tasks complete in the
    order 2, 0, 3, 1.  Both batches return AAPL then MSFT; only the
    timestamps differ. *)
Example both_batches_on_the_demo_source :
  (map (fun s => (symbol s, name s, current_price s, last_update s))
     <$> fetch_multiple_stocks demo_source demo_clock [2; 0; 3; 1]%nat
           demo_symbols)
  = Some [("AAPL", "Apple Inc.", Some (lit 150), Some 1001);
          ("MSFT", "Microsoft", Some (lit 300), Some 1000)]%string /\
  map (fun s => (symbol s, name s, current_price s, last_update s))
    (fetch_multiple_stocks_sync demo_source demo_clock demo_symbols)
  = [("AAPL", "Apple Inc.", Some (lit 150), Some 1000);
     ("MSFT", "Microsoft", Some (lit 300), Some 1002)]%string /\
  fetch_multiple_stocks demo_source demo_clock [2; 0]%nat demo_symbols = None.
Proof. vm_compute. repeat split. Qed.

(* ===================================================================== *)
(** ** Portfolio: remove_stock, lookups and the uniqueness of symbols *)
(* ===================================================================== *)

Lemma index_with_symbol_none (sym : string) (k : nat) (l : list Stock) :
  index_with_symbol sym k l = None <-> (forall s, s ∈ l -> symbol s <> sym).
Proof.
  revert k. induction l as [|x l IH]; intros k; cbn.
  - split; [intros _ s Hs; inversion Hs | reflexivity].
  - destruct (String.eqb (symbol x) sym) eqn:E.
    + apply String.eqb_eq in E. split; [discriminate|].
      intros H. exfalso. apply (H x); [left | exact E].
    + apply String.eqb_neq in E. rewrite IH. split.
      * intros H s Hs. apply elem_of_cons in Hs as [-> | Hs]; auto.
      * intros H s Hs. apply H. now right.
Qed.

Lemma index_with_symbol_middle (sym : string) (k : nat)
    (l1 l2 : list Stock) (s : Stock) :
  symbol s = sym -> (forall x, x ∈ l1 -> symbol x <> sym) ->
  index_with_symbol sym k (l1 ++ s :: l2) = Some (k + length l1)%nat.
Proof.
  intros Hs. revert k. induction l1 as [|x l1 IH]; intros k Hl1; cbn.
  - apply String.eqb_eq in Hs. rewrite Hs. f_equal. lia.
  - assert (Hx : symbol x <> sym) by (apply Hl1; left).
    apply String.eqb_neq in Hx. rewrite Hx. rewrite IH.
    + f_equal. lia.
    + intros y Hy. apply Hl1. now right.
Qed.

Lemma index_with_symbol_some (sym : string) (k j : nat) (l : list Stock) :
  index_with_symbol sym k l = Some j ->
  exists l1 s l2,
    l = l1 ++ s :: l2 /\ j = (k + length l1)%nat /\ symbol s = sym /\
    (forall x, x ∈ l1 -> symbol x <> sym).
Proof.
  revert k. induction l as [|x l IH]; intros k; cbn; [discriminate|].
  destruct (String.eqb (symbol x) sym) eqn:E.
  - intros [= <-]. apply String.eqb_eq in E.
    exists [], x, l. repeat split; [cbn; lia | exact E |].
    intros y Hy. inversion Hy.
  - intros H. destruct (IH _ H) as (l1 & s & l2 & -> & -> & Hs & Hl1).
    apply String.eqb_neq in E.
    exists (x :: l1), s, l2. repeat split; [cbn; lia | exact Hs |].
    intros y Hy. apply elem_of_cons in Hy as [-> | Hy]; auto.
Qed.

Lemma first_with_symbol_middle (sym : string) (l1 l2 : list Stock)
    (s : Stock) :
  symbol s = sym -> (forall x, x ∈ l1 -> symbol x <> sym) ->
  first_with_symbol sym (l1 ++ s :: l2) = Some s.
Proof.
  intros Hs. induction l1 as [|x l1 IH]; intros Hl1; cbn.
  - apply String.eqb_eq in Hs. now rewrite Hs.
  - assert (Hx : symbol x <> sym) by (apply Hl1; left).
    apply String.eqb_neq in Hx. rewrite Hx. apply IH.
    intros y Hy. apply Hl1. now right.
Qed.

Lemma first_with_symbol_app_none (sym : string) (l1 l2 : list Stock) :
  (forall x, x ∈ l1 -> symbol x <> sym) ->
  first_with_symbol sym (l1 ++ l2) = first_with_symbol sym l2.
Proof.
  induction l1 as [|x l1 IH]; intros Hl1; cbn; [reflexivity|].
  assert (Hx : symbol x <> sym) by (apply Hl1; left).
  apply String.eqb_neq in Hx. rewrite Hx. apply IH.
  intros y Hy. apply Hl1. now right.
Qed.

Lemma first_with_symbol_app_some (sym : string) (l1 l2 : list Stock)
    (s : Stock) :
  first_with_symbol sym l1 = Some s ->
  first_with_symbol sym (l1 ++ l2) = Some s.
Proof.
  induction l1 as [|x l1 IH]; cbn; [discriminate|].
  destruct (String.eqb (symbol x) sym); [tauto | exact IH].
Qed.

Lemma Portfolio_eta (p : Portfolio) :
  {| portfolio_name := portfolio_name p; stocks := stocks p |} = p.
Proof. now destruct p. Qed.

(** [remove_stock] on a symbol no stock carries (in upper case) returns
    [False] and changes nothing.  Otherwise it returns [True] and takes
    out the first stock carrying it, and only that one: the stocks before
    and after it stay, in their order. *)
Theorem remove_stock_effect :
  forall (p : Portfolio) (sym : string),
    ((forall s, s ∈ stocks p -> symbol s <> upper sym) ->
       remove_stock p sym = (false, p)) /\
    (forall l1 s l2,
       stocks p = l1 ++ s :: l2 -> symbol s = upper sym ->
       (forall x, x ∈ l1 -> symbol x <> upper sym) ->
       remove_stock p sym =
         (true, {| portfolio_name := portfolio_name p;
                   stocks := l1 ++ l2 |})).
Proof.
  intros p sym. unfold remove_stock. split.
  - intros H. apply (index_with_symbol_none _ 0) in H. now rewrite H.
  - intros l1 s l2 E Hs Hl1. rewrite E.
    rewrite (index_with_symbol_middle _ 0 l1 l2 s Hs Hl1). cbn [Nat.add].
    now rewrite delete_middle.
Qed.

(** Adding a stock and removing its symbol again gives back the
    portfolio one started from. *)
Theorem add_then_remove_stock :
  forall (p : Portfolio) (q : Stock),
    canonical q ->
    fst (add_stock p q) = true ->
    remove_stock (snd (add_stock p q)) (symbol q) = (true, p).
Proof.
  intros p q Hq. unfold add_stock, get_stock.
  destruct (first_with_symbol (upper (symbol q)) (stocks p)) eqn:E;
    [discriminate|].
  intros _. cbn [snd]. rewrite first_with_symbol_none in E.
  unfold remove_stock. cbn [stocks portfolio_name].
  rewrite (index_with_symbol_middle _ 0 (stocks p) [] q Hq E).
  cbn [Nat.add]. rewrite delete_middle, app_nil_r.
  now rewrite Portfolio_eta.
Qed.

Lemma add_then_remove_stock_witness :
  remove_stock
    (snd (add_stock (mkPortfolio "P" [quote "AAPL" 110 100])
                    (new_Stock "msft" "Microsoft")))
    "MSFT"
  = (true, mkPortfolio "P" [quote "AAPL" 110 100]).
Proof.
  apply (add_then_remove_stock (mkPortfolio "P" [quote "AAPL" 110 100])
           (new_Stock "msft" "Microsoft")); reflexivity.
Defined.

Lemma NoDup_snoc_symbol (l : list Stock) (q : Stock) :
  NoDup (map symbol l) -> (forall s, s ∈ l -> symbol s <> symbol q) ->
  NoDup (map symbol (l ++ [q])).
Proof.
  intros Hnd Hq. rewrite map_app. apply NoDup_app. split; [exact Hnd|].
  split; [|apply NoDup_singleton].
  intros x Hx Hx'. apply list_elem_of_singleton in Hx'. subst x.
  apply list_elem_of_fmap in Hx as (s & Hs & Hin).
  apply (Hq s Hin). now symmetry.
Qed.

(** The uniqueness of symbols is an invariant of the portfolio: on a
    portfolio with upper-case symbols, none of them twice, [add_stock] of
    a stock with an upper-case symbol and [remove_stock] of any symbol
    both give such a portfolio again. *)
Theorem unique_symbols_kept :
  forall (p : Portfolio),
    unique_symbols p ->
    (forall q, canonical q -> unique_symbols (snd (add_stock p q))) /\
    (forall sym, unique_symbols (snd (remove_stock p sym))).
Proof.
  intros p [Hcan Hnd]. split.
  - intros q Hq. unfold add_stock, get_stock.
    destruct (first_with_symbol (upper (symbol q)) (stocks p)) eqn:E;
      [now split|].
    rewrite first_with_symbol_none in E. rewrite <- Hq in E.
    split; cbn [snd stocks].
    + apply Forall_app. split; [exact Hcan | now constructor].
    + now apply NoDup_snoc_symbol.
  - intros sym. unfold remove_stock.
    destruct (index_with_symbol (upper sym) 0 (stocks p)) as [j|] eqn:E;
      [|now split].
    apply index_with_symbol_some in E as (l1 & s & l2 & El & -> & _ & _).
    cbn [snd stocks Nat.add]. rewrite El in *. rewrite delete_middle.
    split.
    + apply Forall_app in Hcan as [H1 H2]. apply Forall_app. split; [exact H1|].
      now inversion H2.
    + rewrite map_app in Hnd. cbn [map] in Hnd.
      apply NoDup_app in Hnd as (H1 & H2 & H3).
      cbn [stocks]. rewrite map_app.
      apply NoDup_app. split; [exact H1|]. split.
      * intros x Hx Hx'. apply (H2 x Hx). now right.
      * now inversion H3.
Qed.

Lemma unique_symbols_kept_witness :
  unique_symbols
    (snd (add_stock (mkPortfolio "P" [quote "AAPL" 110 100; quote "MSFT" 5 4])
                    (new_Stock "goog" "Google"))) /\
  unique_symbols
    (snd (remove_stock
            (mkPortfolio "P" [quote "AAPL" 110 100; quote "MSFT" 5 4])
            "aapl")).
Proof.
  assert (H : unique_symbols
                (mkPortfolio "P" [quote "AAPL" 110 100; quote "MSFT" 5 4])).
  { split; [repeat constructor|]. cbn.
    repeat (constructor; [rewrite ?elem_of_cons, ?elem_of_nil;
                          intuition discriminate|]).
    constructor. }
  split.
  - apply (proj1 (unique_symbols_kept _ H)). apply new_Stock_canonical.
  - apply (proj2 (unique_symbols_kept _ H)).
Defined.

(** A stock that was added is found again under its symbol, in any
    case of letters, and the lookup of every other symbol is as before. *)
Theorem get_stock_after_add :
  forall (p : Portfolio) (q : Stock),
    canonical q ->
    fst (add_stock p q) = true ->
    (forall sym, upper sym = symbol q ->
                 get_stock (snd (add_stock p q)) sym = Some q) /\
    (forall sym, upper sym <> symbol q ->
                 get_stock (snd (add_stock p q)) sym = get_stock p sym).
Proof.
  intros p q Hq. unfold add_stock, get_stock.
  destruct (first_with_symbol (upper (symbol q)) (stocks p)) eqn:E;
    [discriminate|].
  intros _. cbn [snd stocks]. rewrite first_with_symbol_none in E.
  rewrite <- Hq in E. split.
  - intros sym Hsym. rewrite Hsym.
    now apply first_with_symbol_middle.
  - intros sym Hsym.
    destruct (first_with_symbol (upper sym) (stocks p)) as [s|] eqn:Es.
    + now apply first_with_symbol_app_some.
    + rewrite first_with_symbol_none in Es.
      rewrite (first_with_symbol_app_none _ _ _ Es). cbn.
      assert (Hne : symbol q <> upper sym) by congruence.
      apply String.eqb_neq in Hne. now rewrite Hne.
Qed.

Lemma get_stock_after_add_witness :
  get_stock (snd (add_stock (mkPortfolio "P" [quote "AAPL" 110 100])
                            (new_Stock "msft" "Microsoft"))) "Msft"
  = Some (new_Stock "msft" "Microsoft") /\
  get_stock (snd (add_stock (mkPortfolio "P" [quote "AAPL" 110 100])
                            (new_Stock "msft" "Microsoft"))) "aapl"
  = get_stock (mkPortfolio "P" [quote "AAPL" 110 100]) "aapl".
Proof.
  split.
  - apply (proj1 (get_stock_after_add (mkPortfolio "P" [quote "AAPL" 110 100])
                    (new_Stock "msft" "Microsoft") eq_refl eq_refl)).
    reflexivity.
  - apply (proj2 (get_stock_after_add (mkPortfolio "P" [quote "AAPL" 110 100])
                    (new_Stock "msft" "Microsoft") eq_refl eq_refl)).
    discriminate.
Defined.

(** On a portfolio that holds no symbol twice, a symbol that was removed
    is no longer found, and the lookup of every other symbol is as
    before. *)
Theorem get_stock_after_remove :
  forall (p : Portfolio) (sym : string),
    unique_symbols p ->
    fst (remove_stock p sym) = true ->
    get_stock (snd (remove_stock p sym)) sym = None /\
    (forall sym', upper sym' <> upper sym ->
                  get_stock (snd (remove_stock p sym)) sym'
                  = get_stock p sym').
Proof.
  intros p sym [_ Hnd]. unfold remove_stock, get_stock.
  destruct (index_with_symbol (upper sym) 0 (stocks p)) as [j|] eqn:E;
    [|discriminate].
  intros _. apply index_with_symbol_some in E as (l1 & s & l2 & El & -> & Hs & Hl1).
  cbn [snd stocks Nat.add]. rewrite El in *. rewrite delete_middle.
  rewrite map_app in Hnd. cbn [map] in Hnd.
  apply NoDup_app in Hnd as (_ & H2 & H3).
  assert (Hl2 : forall x, x ∈ l2 -> symbol x <> upper sym).
  { intros x Hx Hsx. inversion H3 as [|? ? Hnot _]; subst.
    apply Hnot. rewrite Hs, <- Hsx. apply list_elem_of_fmap. eauto. }
  split.
  - apply first_with_symbol_none. intros x Hx.
    apply elem_of_app in Hx as [Hx | Hx]; auto.
  - intros sym' Hne.
    destruct (first_with_symbol (upper sym') l1) as [x|] eqn:E1.
    + rewrite (first_with_symbol_app_some _ _ l2 _ E1).
      now rewrite (first_with_symbol_app_some _ _ (s :: l2) _ E1).
    + rewrite first_with_symbol_none in E1.
      rewrite !(first_with_symbol_app_none _ _ _ E1). cbn.
      assert (Hne' : symbol s <> upper sym') by congruence.
      apply String.eqb_neq in Hne'. now rewrite Hne'.
Qed.

Lemma get_stock_after_remove_witness :
  get_stock
    (snd (remove_stock
            (mkPortfolio "P" [quote "AAPL" 110 100; quote "MSFT" 5 4])
            "aapl")) "aapl" = None.
Proof.
  apply (get_stock_after_remove
           (mkPortfolio "P" [quote "AAPL" 110 100; quote "MSFT" 5 4]) "aapl").
  - split; [repeat constructor|]. cbn.
    repeat (constructor; [rewrite ?elem_of_cons, ?elem_of_nil;
                          intuition discriminate|]).
    constructor.
  - reflexivity.
Defined.

(** The count of stocks grows by one exactly when [add_stock] returns
    [True] and shrinks by one exactly when [remove_stock] returns [True];
    a call that returns [False] leaves the portfolio as it was. *)
Theorem stocks_count_after_add_remove :
  forall (p : Portfolio) (q : Stock) (sym : string),
    (get_stocks_count (snd (add_stock p q))
     = (get_stocks_count p + if fst (add_stock p q) then 1 else 0)%nat) /\
    (get_stocks_count p
     = (get_stocks_count (snd (remove_stock p sym))
        + if fst (remove_stock p sym) then 1 else 0)%nat) /\
    (fst (add_stock p q) = false -> snd (add_stock p q) = p) /\
    (fst (remove_stock p sym) = false -> snd (remove_stock p sym) = p).
Proof.
  intros p q sym. unfold get_stocks_count, add_stock, remove_stock.
  destruct (get_stock p (symbol q));
    destruct (index_with_symbol (upper sym) 0 (stocks p)) as [j|] eqn:E;
    cbn [fst snd stocks]; rewrite ?length_app; cbn [length];
    repeat split; try lia; try discriminate.
  all: apply index_with_symbol_some in E as (l1 & x & l2 & -> & -> & _);
    cbn [Nat.add]; rewrite delete_middle, !length_app; cbn [length]; lia.
Qed.

(* ===================================================================== *)
(** ** Rounded values: the signs of the two variations *)
(* ===================================================================== *)

Lemma round_half_even_le (x : Q) (k : Z) :
  (x <= inject_Z k)%Q -> round_half_even x <= k.
Proof.
  intros H. pose proof (round_half_even_close x) as [_ Hc].
  assert (Hq : (inject_Z (round_half_even x) <= inject_Z k + (1 # 2))%Q) by lra.
  revert Hq. generalize (round_half_even x). intros r.
  unfold Qle, Qplus, inject_Z. cbn. lia.
Qed.

Lemma round_half_even_ge (x : Q) (k : Z) :
  (inject_Z k <= x)%Q -> k <= round_half_even x.
Proof.
  intros H. pose proof (round_half_even_close x) as [Hc _].
  assert (Hq : (inject_Z k <= inject_Z (round_half_even x) + (1 # 2))%Q) by lra.
  revert Hq. generalize (round_half_even x). intros r.
  unfold Qle, Qplus, inject_Z. cbn. lia.
Qed.

Lemma hundredths_le (z k : Z) : z <= k -> (z # 100 <= k # 100)%Q.
Proof. unfold Qle. cbn. lia. Qed.

(** Rounding to two decimals is monotone against the multiples of
    1/100. *)
Lemma round2_le_hundredth (a : Q) (k : Z) :
  (a <= k # 100)%Q ->
  (round_half_even (a * 100) # 100 <= k # 100)%Q.
Proof.
  intros H. apply hundredths_le, round_half_even_le.
  assert (E : (k # 100 == inject_Z k / 100)%Q) by apply Qmake_Qdiv.
  rewrite E in H. set (y := inject_Z k) in *. clearbody y.
  unfold Qdiv in H. change (/ 100)%Q with (1 # 100)%Q in H. lra.
Qed.

Lemma round2_ge_hundredth (a : Q) (k : Z) :
  (k # 100 <= a)%Q ->
  (k # 100 <= round_half_even (a * 100) # 100)%Q.
Proof.
  intros H. apply hundredths_le, round_half_even_ge.
  assert (E : (k # 100 == inject_Z k / 100)%Q) by apply Qmake_Qdiv.
  rewrite E in H. set (y := inject_Z k) in *. clearbody y.
  unfold Qdiv in H. change (/ 100)%Q with (1 # 100)%Q in H. lra.
Qed.

Lemma round2_nonneg (a : Q) :
  (0 <= a)%Q -> (0 <= round_half_even (a * 100) # 100)%Q.
Proof.
  intros H. assert (Hk : (0 # 100 <= a)%Q) by (unfold Qle in *; cbn in *; lia).
  apply round2_ge_hundredth in Hk. unfold Qle in *. cbn in *. lia.
Qed.

Lemma round2_nonpos (a : Q) :
  (a <= 0)%Q -> (round_half_even (a * 100) # 100 <= 0)%Q.
Proof.
  intros H. assert (Hk : (a <= 0 # 100)%Q) by (unfold Qle in *; cbn in *; lia).
  apply round2_le_hundredth in Hk. unfold Qle in *. cbn in *. lia.
Qed.

(** With a finite price and a finite opening price above zero the two
    variations of a stock, in per cent and in value, are both defined and
    never disagree in sign: neither is below zero when the price is at or
    above the opening, neither is above zero when it is at or below (an
    infinity, as an overflow of the division gives, keeps its sign). *)
Theorem variations_agree_in_sign :
  forall (s : Stock) (c o : Q),
    current_price s = Some (Fin c) ->
    opening_price s = Some (Fin o) ->
    (0 < o)%Q ->
    exists v d : float,
      get_variation s = Some v /\
      get_variation_value s = Some d /\
      ((o <= c)%Q -> at_least_zero v /\ at_least_zero d) /\
      ((c <= o)%Q -> at_most_zero v /\ at_most_zero d).
Proof.
  intros s c o Hc Ho Hpos.
  unfold get_variation, get_variation_value. rewrite Hc, Ho.
  assert (Ez : Qeq_bool o 0 = false).
  { apply Qeq_bool_false. intros E. rewrite E in Hpos.
    now apply Qlt_irrefl in Hpos. }
  unfold feqb, lit. change (inject_Z 0) with 0%Q. rewrite Ez.
  cbn [fsub fneg fadd]. rewrite (fdiv_fin _ _ Ez). cbn [fmul round2].
  change (inject_Z 100) with 100%Q.
  eexists. eexists. split; [reflexivity|]. split; [reflexivity|].
  cbn [at_least_zero at_most_zero].
  split; intros H.
  - split.
    + apply round2_nonneg.
      assert (0 <= (c + - o) / o)%Q.
      { apply Qle_shift_div_l; [exact Hpos | lra]. }
      lra.
    + apply round2_nonneg. lra.
  - split.
    + apply round2_nonpos.
      assert ((c + - o) / o <= 0)%Q.
      { apply Qle_shift_div_r; [exact Hpos | lra]. }
      lra.
    + apply round2_nonpos. lra.
Qed.

Lemma variations_agree_in_sign_witness :
  exists v d : float,
    get_variation (quote "AAA" 99 100) = Some v /\
    get_variation_value (quote "AAA" 99 100) = Some d /\
    ((100 <= 99)%Q -> at_least_zero v /\ at_least_zero d) /\
    ((99 <= 100)%Q -> at_most_zero v /\ at_most_zero d).
Proof.
  apply (variations_agree_in_sign (quote "AAA" 99 100) 99 100);
    reflexivity.
Defined.

(** The sum of [n] numbers between [lo] and [hi] lies between [n * lo]
    and [n * hi]. *)
Lemma fold_fadd_between (lo hi : Q) (xs : list float) (s0 : Q) :
  Forall (fun x => exists q, x = Fin q /\ (lo <= q <= hi)%Q) xs ->
  exists s,
    fold_left fadd xs (Fin s0) = Fin s /\
    (s0 + inject_Z (Z.of_nat (length xs)) * lo <= s)%Q /\
    (s <= s0 + inject_Z (Z.of_nat (length xs)) * hi)%Q.
Proof.
  intros H. revert s0. induction H as [|x xs (q & -> & Hq) _ IH]; intros s0.
  - exists s0. cbn [fold_left length]. split; [reflexivity|].
    change (inject_Z (Z.of_nat 0)) with 0%Q. split; lra.
  - cbn [fold_left fadd length]. destruct (IH (s0 + q)%Q) as (s & E & H1 & H2).
    exists s. split; [exact E|].
    rewrite Nat2Z.inj_succ. unfold Z.succ. rewrite inject_Z_plus.
    set (n := inject_Z (Z.of_nat (length xs))) in *. clearbody n.
    change (inject_Z 1) with 1%Q.
    assert (E1 : ((n + 1) * lo == n * lo + lo)%Q) by ring.
    assert (E2 : ((n + 1) * hi == n * hi + hi)%Q) by ring.
    rewrite E1, E2.
    set (nlo := (n * lo)%Q) in *. set (nhi := (n * hi)%Q) in *.
    clearbody nlo nhi. split; lra.
Qed.

Lemma mean_between (lo hi : Q) (xs : list float) :
  xs <> [] ->
  Forall (fun x => exists q, x = Fin q /\ (lo <= q <= hi)%Q) xs ->
  exists m, mean xs = Fin m /\ (lo <= m <= hi)%Q.
Proof.
  intros Hne H. unfold mean, fsum, lit.
  destruct (fold_fadd_between lo hi xs (inject_Z 0) H) as (s & -> & H1 & H2).
  assert (Hn : (0 < inject_Z (Z.of_nat (length xs)))%Q).
  { apply Q_of_nat_pos. destruct xs; [congruence | cbn; lia]. }
  unfold float_of_nat, lit.
  set (n := inject_Z (Z.of_nat (length xs))) in *. clearbody n.
  assert (Ez : Qeq_bool n 0 = false).
  { apply Qeq_bool_false. intros E. rewrite E in Hn.
    now apply Qlt_irrefl in Hn. }
  rewrite (fdiv_fin _ _ Ez). exists (s / n)%Q. split; [reflexivity|].
  change (inject_Z 0) with 0%Q in *. split.
  - apply Qle_shift_div_l; [exact Hn | lra].
  - apply Qle_shift_div_r; [exact Hn | lra].
Qed.

(* ===================================================================== *)
(** ** Moving average, trend and descriptive statistics *)
(* ===================================================================== *)

Lemma rolling_mean_lookup (window : nat) (xs : list float) (i : nat) :
  (i < length xs)%nat ->
  rolling_mean window xs !! i = Some (window_mean window (firstn (S i) xs)).
Proof.
  intros H. unfold rolling_mean. rewrite list_lookup_fmap.
  rewrite lookup_seq_lt by exact H. reflexivity.
Qed.

(** The mean over a full window of numbers is their mean, a number. *)
Lemma window_mean_finite (window : nat) (xs : list float) :
  (1 <= window <= length xs)%nat -> Forall is_finite xs ->
  window_mean window xs = mean (trailing window xs) /\
  is_finite (mean (trailing window xs)).
Proof.
  intros [H1 H2] Hxs. unfold window_mean, mean.
  pose proof (Forall_trailing is_finite window xs Hxs) as Ht.
  rewrite (observations_finite _ Ht), length_trailing.
  replace (Nat.min window (length xs)) with window by lia.
  replace ((window <=? window)%nat && (0 <? window)%nat) with true.
  2:{ symmetry. apply andb_true_iff. split;
      [apply Nat.leb_le; lia | apply Nat.ltb_lt; lia]. }
  split; [reflexivity|].
  assert (Hs : is_finite (fsum (trailing window xs))).
  { unfold fsum. generalize (lit 0) (I : is_finite (lit 0)).
    induction Ht as [|x l Hx _ IH]; intros acc Hacc; [exact Hacc|].
    cbn. apply IH. destruct acc, x; cbn in *; tauto. }
  destruct (fsum (trailing window xs)) as [| |s|]; cbn in Hs; try tauto.
  pose proof (Q_of_nat_pos window H1) as Hpos.
  unfold float_of_nat, lit, fdiv.
  destruct (Qeq_bool (inject_Z (Z.of_nat window)) 0) eqn:Ez; [|exact I].
  apply Qeq_bool_iff in Ez. rewrite Ez in Hpos. now apply Qlt_irrefl in Hpos.
Qed.

(** The moving average is missing exactly when there is no data.
    Otherwise it has one value per bar, and the value of every bar
    before bar [window - 1], whose window is not full, is NaN. *)
Theorem moving_average_values :
  forall (data : option DataFrame) (window : nat),
    match calculate_moving_average data window with
    | None => no_data data = true
    | Some ma =>
        no_data data = false /\
        length ma = length (frame data) /\
        (forall i, (i < length (frame data))%nat -> (S i < window)%nat ->
                   ma !! i = Some NaN)
    end.
Proof.
  intros data window. unfold calculate_moving_average.
  destruct (no_data data); [reflexivity|].
  assert (Hlen : length (Close_column (frame data)) = length (frame data))
    by (unfold Close_column; apply length_map).
  split; [reflexivity|]. split.
  - unfold rolling_mean. now rewrite length_map, length_seq.
  - intros i Hi Hw. rewrite rolling_mean_lookup by lia. f_equal.
    apply window_mean_short. rewrite length_take. lia.
Qed.

(** Closes 1, 2, 3, 4, 5 and a window of 3: NaN, NaN, then the means 2,
    3 and 4. *)
Example moving_average_of_five_bars :
  calculate_moving_average (frame_of [1; 2; 3; 4; 5]) 3
  = Some [NaN; NaN; Fin (6 # 3); Fin (9 # 3); Fin (12 # 3)] /\
  calculate_moving_average (frame_of [1; 2]) 3 = Some [NaN; NaN] /\
  calculate_moving_average (frame_of []) 3 = None.
Proof. vm_compute. repeat split. Qed.

Lemma fltb_nan_r (x : float) : fltb x NaN = false.
Proof. now destruct x. Qed.

Lemma calculate_trend_window (data : option DataFrame) (window : nat) :
  no_data data = false ->
  calculate_trend data window
  = let current_price := iloc_last (Close_column (frame data)) in
    let ma_value := window_mean window (Close_column (frame data)) in
    if fgtb current_price (fmul ma_value (Fin (102 # 100))) then "HAUSSE"%string
    else if fltb current_price (fmul ma_value (Fin (98 # 100)))
    then "BAISSE"%string else "STABLE"%string.
Proof.
  intros H. unfold calculate_trend, calculate_moving_average. rewrite H.
  cbn zeta. rewrite iloc_last_rolling_mean
    by (now apply Close_column_nonempty).
  reflexivity.
Qed.

(** [calculate_trend] answers INCONNU exactly when there is no data.  On
    a series with fewer bars than the window the moving average is NaN
    and the answer is STABLE. *)
Theorem trend_without_full_window :
  forall (data : option DataFrame) (window : nat),
    (calculate_trend data window = "INCONNU"%string <-> no_data data = true)
    /\
    (no_data data = false -> (length (frame data) < window)%nat ->
     calculate_trend data window = "STABLE"%string).
Proof.
  intros data window. split.
  - destruct (no_data data) eqn:H.
    + unfold calculate_trend. rewrite H. tauto.
    + rewrite (calculate_trend_window data window H). cbn zeta.
      split; [|discriminate].
      destruct (fgtb _ _); [discriminate|].
      destruct (fltb _ _); discriminate.
  - intros H Hlen. rewrite (calculate_trend_window data window H). cbn zeta.
    rewrite window_mean_short
      by (unfold Close_column; now rewrite length_map).
    cbn [fmul]. unfold fgtb. cbn [fltb]. now rewrite fltb_nan_r.
Qed.

Lemma window_mean_between (lo hi : Q) (window : nat) (xs : list float) :
  (1 <= window <= length xs)%nat ->
  Forall (fun x => exists q, x = Fin q /\ (lo <= q <= hi)%Q) xs ->
  exists m, window_mean window xs = Fin m /\ (lo <= m <= hi)%Q.
Proof.
  intros Hw Hxs.
  assert (Hfin : Forall is_finite xs).
  { eapply Forall_impl; [exact Hxs|]. now intros x (q & -> & _). }
  destruct (window_mean_finite window xs Hw Hfin) as [-> _].
  apply mean_between.
  - intros E. apply (f_equal (@length float)) in E.
    rewrite length_trailing in E. cbn in E. lia.
  - now apply Forall_trailing.
Qed.

Lemma window_mean_zero_window (xs : list float) : window_mean 0 xs = NaN.
Proof.
  unfold window_mean, trailing. rewrite Nat.sub_0_r, skipn_all. reflexivity.
Qed.

(** On a series whose closes are all the same number, not negative, the
    trend is STABLE, whatever the window. *)
Theorem trend_of_flat_series :
  forall (data : option DataFrame) (window : nat) (c : Q),
    no_data data = false ->
    (0 <= c)%Q ->
    Forall (fun b => Close b = Fin c) (frame data) ->
    calculate_trend data window = "STABLE"%string.
Proof.
  intros data window c Hdata Hc Hflat.
  rewrite (calculate_trend_window data window Hdata). cbn zeta.
  rewrite (flat_column _ _ Hflat).
  assert (Hn : (1 <= length (frame data))%nat).
  { destruct data as [[|b d]|]; cbn in *; try discriminate. lia. }
  assert (Hlast : iloc_last (replicate (length (frame data)) (Fin c)) = Fin c).
  { unfold iloc_last. destruct (length (frame data)) as [|n]; [lia|].
    rewrite replicate_S_end. apply last_last. }
  rewrite Hlast.
  destruct (Nat.le_gt_cases window (length (frame data))) as [Hw | Hw].
  - destruct window as [|w].
    + rewrite window_mean_zero_window. reflexivity.
    + destruct (window_mean_between c c (S w)
                  (replicate (length (frame data)) (Fin c)))
        as (m & -> & Hm1 & Hm2).
      * rewrite length_replicate. lia.
      * apply Forall_replicate. exists c. split; [reflexivity | lra].
      * unfold fgtb. cbn [fmul fltb].
        assert (G : Qlt_bool (m * (102 # 100)) c = false)
          by (apply Qlt_bool_false; lra).
        assert (L : Qlt_bool c (m * (98 # 100)) = false)
          by (apply Qlt_bool_false; lra).
        now rewrite G, L.
  - rewrite window_mean_short by (now rewrite length_replicate).
    reflexivity.
Qed.

Lemma trend_of_flat_series_witness :
  calculate_trend (frame_of (replicate 25 7)) 20 = "STABLE"%string.
Proof.
  apply (trend_of_flat_series (frame_of (replicate 25 7)) 20 7 eq_refl).
  - discriminate.
  - repeat constructor.
Defined.

(** *** Descriptive statistics *)

Lemma fold_fmin2_least (rest : list float) (x : float) :
  Forall is_finite (x :: rest) ->
  exists q, fold_left fmin2 rest x = Fin q /\ Fin q ∈ x :: rest /\
            (forall c, Fin c ∈ x :: rest -> (q <= c)%Q).
Proof.
  revert x. induction rest as [|y rest IH]; intros x H.
  - inversion H as [|? ? Hx _]; subst. destruct x as [| |a|]; cbn in Hx; try tauto.
    exists a. cbn. split; [reflexivity|]. split; [left|].
    intros c Hc. apply list_elem_of_singleton in Hc. injection Hc as ->. lra.
  - inversion H as [|? ? Hx Hr]; subst. inversion Hr as [|? ? Hy Hrest]; subst.
    destruct x as [| |a|], y as [| |b|]; cbn in Hx, Hy; try tauto.
    cbn [fold_left]. unfold fmin2 at 2. cbn [fltb].
    destruct (Qlt_bool b a) eqn:E.
    + apply Qlt_bool_iff in E.
      destruct (IH (Fin b) Hr) as (q & Eq & Hin & Hle).
      exists q. split; [exact Eq|]. split; [now right|].
      intros c Hc. apply elem_of_cons in Hc as [Hc | Hc]; [|now apply Hle].
      injection Hc as ->. specialize (Hle b ltac:(left)). lra.
    + apply Qlt_bool_false in E.
      destruct (IH (Fin a) ltac:(now constructor)) as (q & Eq & Hin & Hle).
      exists q. split; [exact Eq|]. split.
      * apply elem_of_cons in Hin as [-> | Hin]; [left | right; now right].
      * intros c Hc. apply elem_of_cons in Hc as [Hc | Hc].
        -- apply Hle. rewrite Hc. left.
        -- apply elem_of_cons in Hc as [Hc | Hc].
           ++ injection Hc as ->. specialize (Hle a ltac:(left)). lra.
           ++ apply Hle. now right.
Qed.

Lemma fold_fmax2_greatest (rest : list float) (x : float) :
  Forall is_finite (x :: rest) ->
  exists q, fold_left fmax2 rest x = Fin q /\ Fin q ∈ x :: rest /\
            (forall c, Fin c ∈ x :: rest -> (c <= q)%Q).
Proof.
  revert x. induction rest as [|y rest IH]; intros x H.
  - inversion H as [|? ? Hx _]; subst. destruct x as [| |a|]; cbn in Hx; try tauto.
    exists a. cbn. split; [reflexivity|]. split; [left|].
    intros c Hc. apply list_elem_of_singleton in Hc. injection Hc as ->. lra.
  - inversion H as [|? ? Hx Hr]; subst. inversion Hr as [|? ? Hy Hrest]; subst.
    destruct x as [| |a|], y as [| |b|]; cbn in Hx, Hy; try tauto.
    cbn [fold_left]. unfold fmax2 at 2. cbn [fltb].
    destruct (Qlt_bool a b) eqn:E.
    + apply Qlt_bool_iff in E.
      destruct (IH (Fin b) Hr) as (q & Eq & Hin & Hle).
      exists q. split; [exact Eq|]. split; [now right|].
      intros c Hc. apply elem_of_cons in Hc as [Hc | Hc]; [|now apply Hle].
      injection Hc as ->. specialize (Hle b ltac:(left)). lra.
    + apply Qlt_bool_false in E.
      destruct (IH (Fin a) ltac:(now constructor)) as (q & Eq & Hin & Hle).
      exists q. split; [exact Eq|]. split.
      * apply elem_of_cons in Hin as [-> | Hin]; [left | right; now right].
      * intros c Hc. apply elem_of_cons in Hc as [Hc | Hc].
        -- apply Hle. rewrite Hc. left.
        -- apply elem_of_cons in Hc as [Hc | Hc].
           ++ injection Hc as ->. specialize (Hle a ltac:(left)). lra.
           ++ apply Hle. now right.
Qed.

(** Without data the statistics are the empty dictionary.  On a
    non-empty series of finite closes the minimum and the maximum are
    closes of the series, and every close lies between them. *)
Theorem statistics_bounds :
  forall (np_sqrt : float -> float) (data : option DataFrame),
    Forall (fun b => is_finite (Close b)) (frame data) ->
    match get_statistics np_sqrt data with
    | None => no_data data = true
    | Some st =>
        exists lo hi : Q,
          prix_min st = Fin lo /\ prix_max st = Fin hi /\
          Fin lo ∈ Close_column (frame data) /\
          Fin hi ∈ Close_column (frame data) /\
          (forall c, Fin c ∈ Close_column (frame data) ->
                     (lo <= c <= hi)%Q)
    end.
Proof.
  intros np_sqrt data Hfin. unfold get_statistics.
  destruct (no_data data) eqn:Hdata; [reflexivity|].
  pose proof (Close_column_finite _ Hfin) as Hcol.
  pose proof (Close_column_nonempty data Hdata) as Hne.
  set (prices := Close_column (frame data)) in *.
  cbn [prix_min prix_max].
  unfold series_min, series_max.
  rewrite (observations_finite prices Hcol).
  destruct prices as [|x rest] eqn:E; [congruence|].
  destruct (fold_fmin2_least rest x Hcol) as (lo & Elo & Hlo & Hmin).
  destruct (fold_fmax2_greatest rest x Hcol) as (hi & Ehi & Hhi & Hmax).
  exists lo, hi. rewrite Elo, Ehi.
  repeat split; try assumption; try (now apply Hmin); try (now apply Hmax).
Qed.

Lemma statistics_bounds_witness :
  match get_statistics sqrt6 (frame_of [3; 1; 4; 1; 5]) with
  | None => no_data (frame_of [3; 1; 4; 1; 5]) = true
  | Some st =>
      exists lo hi : Q,
        prix_min st = Fin lo /\ prix_max st = Fin hi /\
        Fin lo ∈ Close_column (frame (frame_of [3; 1; 4; 1; 5])) /\
        Fin hi ∈ Close_column (frame (frame_of [3; 1; 4; 1; 5])) /\
        (forall c, Fin c ∈ Close_column (frame (frame_of [3; 1; 4; 1; 5])) ->
                   (lo <= c <= hi)%Q)
  end.
Proof.
  apply (statistics_bounds sqrt6 (frame_of [3; 1; 4; 1; 5])).
  repeat constructor.
Defined.

(* ===================================================================== *)
(** ** RSI and signal of a rising series *)
(* ===================================================================== *)

Lemma diff_cons (c0 : float) (rest : list float) :
  diff (c0 :: rest)
  = fsub c0 NaN :: rowwise fsub rest (removelast (c0 :: rest)).
Proof. reflexivity. Qed.

Lemma fsub_nan_r (x : float) : fsub x NaN = NaN.
Proof. now destruct x. Qed.

Lemma delta_never_falls (c prev : float) :
  fltb c prev = false -> fltb (fsub c prev) (lit 0) = false.
Proof.
  destruct c as [| |a|], prev as [| |b|]; cbn; try reflexivity;
    try discriminate.
  intros H. apply Qlt_bool_false in H. apply Qlt_bool_false.
  change (inject_Z 0) with 0%Q. lra.
Qed.

Lemma losses_of_rising (rest : list float) (c0 : float) :
  never_falls_after c0 rest ->
  Forall is_zero
    (map fneg (where_ (fun d => fltb d (lit 0)) (lit 0)
                 (rowwise fsub rest (removelast (c0 :: rest))))).
Proof.
  revert c0. induction rest as [|c1 rest IH]; intros c0 H; [constructor|].
  destruct H as [H1 H2].
  change (removelast (c0 :: c1 :: rest)) with (c0 :: removelast (c1 :: rest)).
  cbn [rowwise where_ map]. constructor; [|now apply IH].
  rewrite (delta_never_falls _ _ H1). reflexivity.
Qed.

(** On a series of which no close is below the one before (a flat or
    rising series), with at least [period] bars, the RSI is exactly 100;
    with at least 14 bars the signal is VENDRE. *)
Theorem rsi_of_rising_series :
  forall (data : option DataFrame),
    no_data data = false ->
    never_falls (Close_column (frame data)) ->
    (forall period, (1 <= period <= length (frame data))%nat ->
                    calculate_rsi data period = Some (lit 100)) /\
    ((14 <= length (frame data))%nat ->
     get_simple_signal data = "VENDRE"%string).
Proof.
  intros data Hdata Hrise.
  assert (Hrsi : forall period, (1 <= period <= length (frame data))%nat ->
                   calculate_rsi data period = Some (lit 100)).
  { intros period Hp. apply rsi_division_guarded; [exact Hdata|].
    rewrite (avg_loss_of_window data period Hdata).
    apply window_mean_zero.
    - rewrite length_losses_of, length_diff. unfold Close_column.
      now rewrite length_map.
    - destruct (Close_column (frame data)) as [|c0 rest]; [constructor|].
      rewrite diff_cons, fsub_nan_r. unfold losses_of.
      cbn [where_ map]. constructor; [reflexivity|].
      now apply losses_of_rising. }
  split; [exact Hrsi|].
  intros H14. unfold get_simple_signal. rewrite (Hrsi 14%nat) by lia.
  reflexivity.
Qed.

Lemma rsi_of_rising_series_witness :
  calculate_rsi (frame_of [1; 1; 2; 3; 3; 5]) 4 = Some (lit 100) /\
  get_simple_signal
    (frame_of [1; 2; 3; 4; 5; 6; 7; 8; 9; 10; 11; 12; 13; 14; 15])
  = "VENDRE"%string.
Proof.
  split.
  - apply (proj1 (rsi_of_rising_series (frame_of [1; 1; 2; 3; 3; 5]) eq_refl
                    ltac:(cbn; tauto))).
    cbn. lia.
  - apply (proj2 (rsi_of_rising_series
                    (frame_of [1; 2; 3; 4; 5; 6; 7; 8; 9; 10; 11; 12; 13; 14; 15])
                    eq_refl ltac:(cbn; tauto))).
    cbn. lia.
Defined.

(** [get_simple_signal] answers INCONNU exactly when there is no data:
    no DataFrame, or an empty one. *)
Theorem signal_unknown_only_without_data :
  forall data : option DataFrame,
    get_simple_signal data = "INCONNU"%string <-> no_data data = true.
Proof.
  intros data. rewrite signal_unknown_iff. apply rsi_none_iff.
Qed.

(* ===================================================================== *)
(** ** Stocks made and updated from the data source *)
(* ===================================================================== *)

Lemma update_price_fields (now : datetime) (s : Stock) (p : float)
    (o h l : option float) (v : option Z) :
  symbol (update_price now s p o h l v) = symbol s /\
  name (update_price now s p o h l v) = name s /\
  current_price (update_price now s p o h l v) = Some p /\
  last_update (update_price now s p o h l v) = Some now /\
  (is_Some v -> is_Some (volume (update_price now s p o h l v))).
Proof.
  destruct o, h, l, v; cbn; repeat split; try reflexivity;
    intros [x Hx]; eauto; discriminate.
Qed.

(** [create_stock_from_api] fails exactly when the request raises or the
    answer has no ['currentPrice'].  The stock it makes carries the
    symbol in upper case, the current price of the source and the time of
    the call. *)
Theorem created_stock_shape :
  forall (src : Source) (now : datetime) (sym : string),
    match create_stock_from_api src now sym with
    | Some stock =>
        exists info price,
          src sym = Some info /\ currentPrice info = Some price /\
          symbol stock = upper sym /\ canonical stock /\
          current_price stock = Some price /\
          last_update stock = Some now
    | None =>
        src sym = None \/
        exists info, src sym = Some info /\ currentPrice info = None
    end.
Proof.
  intros src now sym. unfold create_stock_from_api, fetch_current_price.
  destruct (src sym) as [info|]; [|now left].
  destruct (currentPrice info) as [price|] eqn:Eprice; [|right; eauto].
  cbn [data_symbol data_name data_current_price data_open data_high
       data_low data_volume].
  match goal with
  | |- context [update_price ?n ?s ?p ?o ?h ?l ?v] =>
      destruct (update_price_fields n s p o h l v)
        as (Hsym & _ & Hcur & Hlast & _)
  end.
  exists info, price. split; [reflexivity|]. split; [exact Eprice|].
  assert (Hs : forall st, symbol st = upper (upper sym) ->
                          symbol st = upper sym /\ canonical st).
  { intros st E. rewrite upper_idempotent in E. split; [exact E|].
    unfold canonical. rewrite E. symmetry. apply upper_idempotent. }
  destruct (Hs _ Hsym) as [H1 H2].
  repeat split; assumption.
Qed.

(** [update_stock_from_api] returns [False] and leaves the stock as it
    is when the source has no price for its symbol.  Otherwise it returns
    [True]; the stock keeps its symbol, takes the price of the source and
    the time of the call, and keeps its name unless the name was empty or
    was the symbol itself, in which case it takes the name of the
    source. *)
Theorem update_stock_from_api_effect :
  forall (src : Source) (now : datetime) (stock : Stock),
    match fetch_current_price src (symbol stock) with
    | None => update_stock_from_api src now stock = (false, stock)
    | Some data =>
        fst (update_stock_from_api src now stock) = true /\
        let stock' := snd (update_stock_from_api src now stock) in
        symbol stock' = symbol stock /\
        current_price stock' = Some (data_current_price data) /\
        last_update stock' = Some now /\
        (name stock <> ""%string -> name stock <> symbol stock ->
         name stock' = name stock) /\
        (name stock = ""%string \/ name stock = symbol stock ->
         name stock' = data_name data)
    end.
Proof.
  intros src now stock. unfold update_stock_from_api.
  destruct (fetch_current_price src (symbol stock)) as [data|];
    [|reflexivity].
  cbn [fst snd]. split; [reflexivity|]. cbn zeta.
  destruct (String.eqb_spec (name stock) (symbol stock)) as [E1 | E1];
    destruct (String.eqb_spec (name stock) "") as [E2 | E2]; cbn [orb];
    match goal with
    | |- context [update_price ?n ?s ?p ?o ?h ?l ?v] =>
        destruct (update_price_fields n s p o h l v)
          as (Hsym & Hname & Hcur & Hlast & _)
    end;
    rewrite Hsym, Hname, Hcur, Hlast; cbn [symbol name set_name];
    repeat split; try reflexivity; try tauto; try congruence.
Qed.

(** Updating a stock just made with its symbol for name gives the stock
    [create_stock_from_api] makes for that symbol. *)
Theorem update_of_new_stock_is_create :
  forall (src : Source) (now : datetime) (sym : string),
    upper sym = sym ->
    update_stock_from_api src now (new_Stock sym sym)
    = match create_stock_from_api src now sym with
      | Some stock => (true, stock)
      | None => (false, new_Stock sym sym)
      end.
Proof.
  intros src now sym Hsym.
  unfold update_stock_from_api, create_stock_from_api.
  cbn [symbol name new_Stock]. rewrite Hsym.
  destruct (fetch_current_price src sym) as [data|] eqn:E; [|reflexivity].
  rewrite String.eqb_refl. cbn [orb].
  assert (Hs : data_symbol data = sym).
  { unfold fetch_current_price in E.
    destruct (src sym) as [info|]; [|discriminate].
    destruct (currentPrice info); [|discriminate].
    inversion E. cbn. exact Hsym. }
  rewrite Hs. unfold new_Stock, set_name. cbn. rewrite Hsym. reflexivity.
Qed.

Lemma update_of_new_stock_is_create_witness :
  update_stock_from_api demo_source 1000 (new_Stock "MSFT" "MSFT")
  = match create_stock_from_api demo_source 1000 "MSFT" with
    | Some stock => (true, stock)
    | None => (false, new_Stock "MSFT" "MSFT")
    end.
Proof.
  apply (update_of_new_stock_is_create demo_source 1000 "MSFT").
  reflexivity.
Defined.

(* ===================================================================== *)
(** ** Refreshing a portfolio from the data source *)
(* ===================================================================== *)

Lemma refresh_price_fields (t : datetime) (s u : Stock) :
  symbol (refresh_price t s u) = symbol s /\
  name (refresh_price t s u) = name s /\
  current_price (refresh_price t s u) = current_price u /\
  last_update (refresh_price t s u) = Some t.
Proof.
  unfold refresh_price.
  destruct (opening_price u), (highest_price u), (lowest_price u), (volume u);
    cbn; repeat split; reflexivity.
Qed.

Lemma update_first_at (sym : string) (f : Stock -> Stock) (l : list Stock)
    (j : nat) (x : Stock) :
  l !! j = Some x -> symbol x = sym ->
  (forall i y, (i < j)%nat -> l !! i = Some y -> symbol y <> sym) ->
  update_first_with_symbol sym f l = Some (<[j := f x]> l).
Proof.
  revert j. induction l as [|a l IH]; intros j Hj Hx Hbefore;
    [now rewrite lookup_nil in Hj|].
  destruct j as [|j]; cbn in Hj |- *.
  - injection Hj as ->. apply String.eqb_eq in Hx. now rewrite Hx.
  - assert (Ha : symbol a <> sym) by (apply (Hbefore 0%nat a); [lia | reflexivity]).
    apply String.eqb_neq in Ha. rewrite Ha.
    rewrite (IH j Hj Hx); [reflexivity|].
    intros i y Hi Hy. apply (Hbefore (S i) y); [lia | exact Hy].
Qed.

Lemma NoDup_symbols_lookup (l : list Stock) (i j : nat) (x y : Stock) :
  NoDup (map symbol l) -> l !! i = Some x -> l !! j = Some y ->
  symbol x = symbol y -> i = j.
Proof.
  intros Hnd Hi Hj E.
  apply (NoDup_lookup (map symbol l) i j (symbol x)); [exact Hnd | |].
  - now rewrite list_lookup_fmap, Hi.
  - now rewrite list_lookup_fmap, Hj, E.
Qed.

Lemma refresh_inv_symbol (l0 l processed : list Stock) (i : nat) (s : Stock) :
  refresh_inv l0 l processed -> l0 !! i = Some s ->
  exists y, l !! i = Some y /\ symbol y = symbol s /\ name y = name s.
Proof.
  intros H Hi. destruct (H i s Hi) as [[_ E] | (u & t & _ & _ & E)].
  - eauto.
  - exists (refresh_price t s u). split; [exact E|].
    destruct (refresh_price_fields t s u) as (H1 & H2 & _). now split.
Qed.

(** The loop of [fetch_and_update_portfolio] over fetched stocks with
    distinct symbols, all of them held: every fetched stock gives one
    update, of the stock that carries its symbol. *)
Lemma refresh_fold (clock : Clock) (l0 : list Stock) :
  NoDup (map symbol l0) -> Forall canonical l0 ->
  forall (us processed l : list Stock) (k : nat),
    NoDup (map symbol (processed ++ us)) ->
    (forall u, u ∈ us -> symbol u ∈ map symbol l0) ->
    length l = length l0 ->
    refresh_inv l0 l processed ->
    snd (fold_left (refresh_step clock) us (l, k)) = (k + length us)%nat /\
    length (fst (fold_left (refresh_step clock) us (l, k))) = length l0 /\
    refresh_inv l0 (fst (fold_left (refresh_step clock) us (l, k)))
                (processed ++ us).
Proof.
  intros Hnd0 Hcan. induction us as [|u us IH];
    intros processed l k Hnd Hheld Hlen Hinv.
  - cbn. rewrite app_nil_r. repeat split; [lia | exact Hlen | exact Hinv].
  - cbn [fold_left].
    assert (Hu : symbol u ∈ map symbol l0) by (apply Hheld; left).
    apply list_elem_of_fmap in Hu as (s & Hsu & Hs).
    apply list_elem_of_lookup in Hs as [j Hj].
    assert (Hcs : upper (symbol u) = symbol u).
    { rewrite Forall_forall in Hcan.
      rewrite Hsu. symmetry. apply Hcan.
      now apply list_elem_of_lookup_2 in Hj. }
    assert (Hfresh : symbol u ∉ map symbol processed).
    { rewrite map_app in Hnd. apply NoDup_app in Hnd as (_ & Hdis & _).
      intros Hin. apply (Hdis _ Hin). cbn. left. }
    assert (Hlj : l !! j = Some s).
    { destruct (Hinv j s Hj) as [[_ E] | (u' & t & Hu' & Eu' & _)];
        [exact E|].
      exfalso. apply Hfresh. rewrite Hsu, <- Eu'.
      apply list_elem_of_fmap. eauto. }
    assert (Hstep : refresh_step clock (l, k) u
                    = (<[j := refresh_price (clock k) s u]> l, S k)).
    { unfold refresh_step. cbn [fst snd]. rewrite Hcs.
      rewrite (update_first_at (symbol u)
                 (fun existing => refresh_price (clock k) existing u) l j s);
        [reflexivity | exact Hlj | now symmetry |].
      intros i y Hi Hy Esym.
      destruct (lookup_lt_is_Some_2 l0 i) as [si Hsi].
      { apply lookup_lt_Some in Hj. lia. }
      destruct (refresh_inv_symbol l0 l processed i si Hinv Hsi)
        as (y' & Hy' & Ey' & _).
      assert (y' = y) by congruence. subst y'.
      assert (i = j); [|lia].
      apply (NoDup_symbols_lookup l0 i j si s Hnd0 Hsi Hj). congruence. }
    rewrite Hstep.
    destruct (IH (processed ++ [u])
                 (<[j := refresh_price (clock k) s u]> l) (S k))
      as (H1 & H2 & H3).
    + now rewrite <- app_assoc.
    + intros u' Hu'. apply Hheld. now right.
    + now rewrite length_insert.
    + intros i si Hsi. destruct (decide (i = j)) as [-> | Hne].
      * right. exists u, (clock k).
        assert (si = s) by congruence. subst si.
        split; [apply elem_of_app; right; left|].
        split; [exact Hsu|].
        apply list_lookup_insert_eq. apply lookup_lt_Some in Hlj. exact Hlj.
      * rewrite list_lookup_insert_ne by congruence.
        destruct (Hinv i si Hsi) as [[Hout E] | (u' & t & Hu' & Eu' & E)].
        -- left. split; [|exact E]. rewrite map_app. intros Hin.
           apply elem_of_app in Hin as [Hin | Hin]; [now apply Hout|].
           cbn in Hin. apply list_elem_of_singleton in Hin.
           apply Hne.
           apply (NoDup_symbols_lookup l0 i j si s Hnd0 Hsi Hj). congruence.
        -- right. exists u', t. split; [apply elem_of_app; now left|].
           now split.
    + rewrite <- app_assoc in H3. cbn [app] in H3.
      repeat split; [cbn [length]; lia | exact H2 | exact H3].
Qed.

Lemma fetch_multiple_stocks_created (src : Source) (clock : Clock)
    (schedule : list nat) (symbols : list string) :
  schedule ≡ₚ seq 0 (length symbols) ->
  exists fetched,
    fetch_multiple_stocks src clock schedule symbols = Some fetched /\
    map erase_time fetched = created src symbols.
Proof.
  intros Hperm. unfold fetch_multiple_stocks, gather.
  destruct (complete_fold src clock symbols schedule
              (replicate (length symbols) None) 0) as (Hlen & _ & Hin).
  set (slots := fst (fold_left (complete src clock symbols) schedule
                       (replicate (length symbols) None, 0%nat))) in *.
  rewrite length_replicate in Hlen, Hin.
  assert (Hfilled : forall i sym, symbols !! i = Some sym ->
            exists t, slots !! i
                      = Some (Some (fetch_one_stock_async src t sym))).
  { intros i sym Hsym. pose proof (lookup_lt_Some _ _ _ Hsym) as Hlt.
    apply Hin; [|exact Hlt | exact Hsym].
    rewrite Hperm. apply elem_of_seq. lia. }
  destruct (all_done_filled slots) as (results & Hdone & Hslots).
  { apply Forall_lookup. intros i o Ho.
    pose proof (lookup_lt_Some _ _ _ Ho) as Hlt. rewrite Hlen in Hlt.
    destruct (lookup_lt_is_Some_2 symbols i Hlt) as [sym Hsym].
    destruct (Hfilled i sym Hsym) as [t Ht].
    rewrite Ht in Ho. inversion Ho. eauto. }
  rewrite Hdone. eexists. split; [reflexivity|].
  apply kept_created. apply Forall2_same_length_lookup_2.
  - rewrite <- Hlen, Hslots. now rewrite length_map.
  - intros i r sym Hr Hsym. destruct (Hfilled i sym Hsym) as [t Ht].
    rewrite Hslots, list_lookup_fmap, Hr in Ht. cbn in Ht.
    exists t. congruence.
Qed.

Lemma create_stock_price (src : Source) (now : datetime) (sym : string)
    (u : Stock) :
  create_stock_from_api src now sym = Some u ->
  exists data, fetch_current_price src sym = Some data /\
               symbol u = upper sym /\
               current_price u = Some (data_current_price data).
Proof.
  intros H. pose proof (create_stock_symbol src now sym) as Hsym.
  rewrite H in Hsym. unfold create_stock_from_api in H.
  destruct (fetch_current_price src sym) as [data|]; [|discriminate].
  exists data. split; [reflexivity|].
  cbn in Hsym. apply (inj Some) in Hsym. split; [exact Hsym|].
  apply (inj Some) in H. rewrite <- H. apply update_price_fields.
Qed.

Lemma fetched_stock (src : Source) (symbols : list string)
    (fetched : list Stock) (u : Stock) :
  map erase_time fetched = created src symbols -> u ∈ fetched ->
  exists sym data,
    sym ∈ symbols /\ fetch_current_price src sym = Some data /\
    symbol u = upper sym /\
    current_price u = Some (data_current_price data).
Proof.
  intros E Hu.
  assert (Hin : erase_time u ∈ created src symbols).
  { rewrite <- E. apply list_elem_of_fmap. eauto. }
  unfold created in Hin. apply list_elem_of_omap in Hin as (sym & Hsym & Hc).
  destruct (create_stock_from_api src 0 sym) as [u0|] eqn:E0;
    [|discriminate].
  change (Some (erase_time u0) = Some (erase_time u)) in Hc.
  apply (inj Some) in Hc. symmetry in Hc.
  destruct (create_stock_price src 0 sym u0 E0) as (data & Hd & Hs & Hp).
  exists sym, data. split; [exact Hsym|]. split; [exact Hd|].
  assert (Hsu : symbol u = symbol u0)
    by (change (symbol (erase_time u) = symbol (erase_time u0)); now rewrite Hc).
  assert (Hpu : current_price u = current_price u0)
    by (change (current_price (erase_time u) = current_price (erase_time u0));
        now rewrite Hc).
  now rewrite Hsu, Hpu.
Qed.

Lemma fetched_symbols (src : Source) (symbols : list string)
    (fetched : list Stock) :
  map erase_time fetched = created src symbols ->
  map symbol fetched
  = omap (fun sym => (fun _ => upper sym) <$> fetch_current_price src sym)
         symbols.
Proof.
  intros E. rewrite <- created_symbols, <- E, map_map. reflexivity.
Qed.

Lemma priced_symbols (src : Source) (symbols : list string) :
  NoDup symbols -> (forall sym, sym ∈ symbols -> upper sym = sym) ->
  NoDup (omap (fun sym => (fun _ => upper sym) <$> fetch_current_price src sym)
              symbols) /\
  (forall x,
     x ∈ omap (fun sym => (fun _ => upper sym) <$> fetch_current_price src sym)
              symbols
     <-> x ∈ symbols /\ is_Some (fetch_current_price src x)).
Proof.
  intros Hnd Hup.
  assert (Hmem : forall x,
     x ∈ omap (fun sym => (fun _ => upper sym) <$> fetch_current_price src sym)
              symbols
     <-> x ∈ symbols /\ is_Some (fetch_current_price src x)).
  { intros x. rewrite list_elem_of_omap. split.
    - intros (sym & Hsym & Hf).
      destruct (fetch_current_price src sym) as [data|] eqn:E;
        [|discriminate].
      cbn in Hf. injection Hf as <-. rewrite (Hup sym Hsym).
      split; [exact Hsym | rewrite E; eauto].
    - intros [Hx [data Hd]]. exists x. split; [exact Hx|].
      rewrite Hd. cbn. now rewrite (Hup x Hx). }
  split; [|exact Hmem].
  clear Hmem. induction Hnd as [|sym symbols Hnot Hnd IH]; [constructor|].
  cbn [omap list_omap].
  assert (IH' := IH (fun s Hs => Hup s ltac:(now right))).
  destruct (fetch_current_price src sym) as [data|]; cbn; [|exact IH'].
  constructor; [|exact IH'].
  intros Hin. apply list_elem_of_omap in Hin as (sym' & Hsym' & Hf).
  destruct (fetch_current_price src sym'); [|discriminate].
  cbn in Hf. injection Hf as Hf.
  rewrite (Hup sym ltac:(left)), (Hup sym' ltac:(now right)) in Hf.
  subst sym'. contradiction.
Qed.

(** What [fetch_and_update_portfolio] comes to on a portfolio that holds
    no symbol twice, once every fetch of the batch has completed. *)
Lemma refresh_outcome (src : Source) (fetch_clock update_clock : Clock)
    (schedule : list nat) (p : Portfolio) :
  unique_symbols p ->
  schedule ≡ₚ seq 0 (length (stocks p)) ->
  exists fetched l',
    fetch_and_update_portfolio src fetch_clock update_clock schedule p
    = Some ((0 <? length fetched)%nat,
            {| portfolio_name := portfolio_name p; stocks := l' |}) /\
    length l' = length (stocks p) /\
    refresh_inv (stocks p) l' fetched /\
    (forall u, u ∈ fetched ->
       exists data, fetch_current_price src (symbol u) = Some data /\
                    current_price u = Some (data_current_price data)) /\
    (forall x, x ∈ map symbol fetched <->
               x ∈ map symbol (stocks p) /\
               is_Some (fetch_current_price src x)).
Proof.
  intros [Hcan Hnd] Hperm. unfold fetch_and_update_portfolio.
  assert (Hup : forall sym, sym ∈ map symbol (stocks p) -> upper sym = sym).
  { intros sym Hsym. apply list_elem_of_fmap in Hsym as (s & -> & Hs).
    rewrite Forall_forall in Hcan. symmetry. now apply Hcan. }
  destruct (fetch_multiple_stocks_created src fetch_clock schedule
              (map symbol (stocks p))) as (fetched & Hf & Hcreated).
  { now rewrite length_map. }
  pose proof (fetched_symbols src _ fetched Hcreated) as Hsyms.
  destruct (priced_symbols src (map symbol (stocks p)) Hnd Hup)
    as [Hnd' Hmem].
  rewrite <- Hsyms in Hnd', Hmem.
  assert (Hprice : forall u, u ∈ fetched ->
            exists data, fetch_current_price src (symbol u) = Some data /\
                         current_price u = Some (data_current_price data)).
  { intros u Hu.
    destruct (fetched_stock src _ fetched u Hcreated Hu)
      as (sym & data & Hsym & Hd & Hs & Hp).
    rewrite (Hup sym Hsym) in Hs. rewrite Hs. eauto. }
  destruct (refresh_fold update_clock (stocks p) Hnd Hcan fetched []
              (stocks p) 0) as (H1 & H2 & H3).
  { exact Hnd'. }
  { intros u Hu. apply Hmem. apply list_elem_of_fmap. eauto. }
  { reflexivity. }
  { intros i s Hi. left. split; [|exact Hi]. cbn. apply not_elem_of_nil. }
  cbn [app Nat.add] in H1, H3.
  destruct p as [nm l]. cbn [stocks portfolio_name] in *.
  destruct l as [|s0 l0].
  - assert (fetched = []) as ->.
    { destruct fetched as [|u ?]; [reflexivity|].
      exfalso. assert (Hu : symbol u ∈ map symbol (u :: fetched)) by (cbn; left).
      apply Hmem in Hu as [Hu _]. inversion Hu. }
    exists [], []. split; [reflexivity|]. split; [reflexivity|].
    split; [|split; [exact Hprice | exact Hmem]].
    intros i s Hi. now rewrite lookup_nil in Hi.
  - rewrite Hf. cbn zeta. rewrite H1.
    exists fetched, (fst (fold_left (refresh_step update_clock) fetched
                            (s0 :: l0, 0%nat))).
    split; [reflexivity|]. split; [exact H2|].
    split; [exact H3|]. split; [exact Hprice | exact Hmem].
Qed.

(** Refreshing a portfolio that holds no symbol twice, once every fetch
    has completed: the portfolio keeps its name and its stocks keep their
    symbols, names and order; the call returns [True] exactly when the
    source has a price for at least one of the symbols held. *)
Theorem refresh_keeps_the_holdings :
  forall (src : Source) (fetch_clock update_clock : Clock)
         (schedule : list nat) (p : Portfolio),
    unique_symbols p ->
    schedule ≡ₚ seq 0 (length (stocks p)) ->
    exists (b : bool) (p' : Portfolio),
      fetch_and_update_portfolio src fetch_clock update_clock schedule p
      = Some (b, p') /\
      portfolio_name p' = portfolio_name p /\
      map symbol (stocks p') = map symbol (stocks p) /\
      map name (stocks p') = map name (stocks p) /\
      (b = true <->
       exists s, s ∈ stocks p /\
                 is_Some (fetch_current_price src (symbol s))).
Proof.
  intros src fc uc schedule p Hu Hperm.
  destruct (refresh_outcome src fc uc schedule p Hu Hperm)
    as (fetched & l' & -> & Hlen & Hinv & _ & Hmem).
  eexists. eexists. split; [reflexivity|]. cbn [portfolio_name stocks].
  split; [reflexivity|].
  assert (Hfields : forall (A : Type) (f : Stock -> A),
            (forall t s u, f (refresh_price t s u) = f s) ->
            map f l' = map f (stocks p)).
  { intros A f Hf. apply list_eq. intros i. rewrite !list_lookup_fmap.
    destruct (stocks p !! i) as [s|] eqn:Ei.
    - destruct (Hinv i s Ei) as [[_ ->] | (u & t & _ & _ & ->)];
        cbn; [reflexivity | now rewrite Hf].
    - apply lookup_ge_None in Ei. rewrite <- Hlen in Ei.
      apply lookup_ge_None in Ei. now rewrite Ei. }
  split; [apply Hfields; intros; apply refresh_price_fields|].
  split; [apply Hfields; intros; apply refresh_price_fields|].
  split.
  - intros Hb. apply Nat.ltb_lt in Hb.
    destruct fetched as [|u fetched]; [cbn in Hb; lia|].
    assert (Hin : symbol u ∈ map symbol (u :: fetched)) by (cbn; left).
    apply Hmem in Hin as [Hin Hsome].
    apply list_elem_of_fmap in Hin as (s & Es & Hs).
    exists s. split; [exact Hs | now rewrite <- Es].
  - intros (s & Hs & Hsome). apply Nat.ltb_lt.
    assert (Hin : symbol s ∈ map symbol fetched).
    { apply Hmem. split; [|exact Hsome]. apply list_elem_of_fmap. eauto. }
    destruct fetched; [inversion Hin | cbn; lia].
Qed.

Lemma refresh_keeps_the_holdings_witness :
  exists (b : bool) (p' : Portfolio),
    fetch_and_update_portfolio demo_source demo_clock demo_clock [1; 0]%nat
      (mkPortfolio "P" [quote "MSFT" 5 4; quote "TSLA" 9 9])
    = Some (b, p') /\
    portfolio_name p' = "P"%string /\
    map symbol (stocks p') = ["MSFT"; "TSLA"]%string /\
    map name (stocks p') = ["MSFT"; "TSLA"]%string /\
    (b = true <->
     exists s, s ∈ [quote "MSFT" 5 4; quote "TSLA" 9 9] /\
               is_Some (fetch_current_price demo_source (symbol s))).
Proof.
  apply (refresh_keeps_the_holdings demo_source demo_clock demo_clock
           [1; 0]%nat (mkPortfolio "P" [quote "MSFT" 5 4; quote "TSLA" 9 9])).
  - split; [repeat constructor|]. cbn.
    repeat (constructor; [rewrite ?elem_of_cons, ?elem_of_nil;
                          intuition discriminate|]).
    constructor.
  - cbn. solve_Permutation.
Defined.

(** Refreshing a portfolio that holds no symbol twice, once every fetch
    has completed: a stock for whose symbol the source has a price takes
    that price and a new timestamp, where it stands; a stock for whose
    symbol the source has none is left exactly as it was. *)
Theorem refresh_sets_the_prices :
  forall (src : Source) (fetch_clock update_clock : Clock)
         (schedule : list nat) (p : Portfolio),
    unique_symbols p ->
    schedule ≡ₚ seq 0 (length (stocks p)) ->
    exists (b : bool) (p' : Portfolio),
      fetch_and_update_portfolio src fetch_clock update_clock schedule p
      = Some (b, p') /\
      forall i s, stocks p !! i = Some s ->
        match fetch_current_price src (symbol s) with
        | Some data =>
            exists s' t,
              stocks p' !! i = Some s' /\
              current_price s' = Some (data_current_price data) /\
              last_update s' = Some t
        | None => stocks p' !! i = Some s
        end.
Proof.
  intros src fc uc schedule p Hu Hperm.
  destruct (refresh_outcome src fc uc schedule p Hu Hperm)
    as (fetched & l' & -> & Hlen & Hinv & Hprice & Hmem).
  eexists. eexists. split; [reflexivity|]. cbn [stocks].
  intros i s Hi.
  assert (Hs : symbol s ∈ map symbol (stocks p)).
  { apply list_elem_of_fmap. exists s. split; [reflexivity|].
    now apply list_elem_of_lookup_2 in Hi. }
  destruct (fetch_current_price src (symbol s)) as [data|] eqn:Ed.
  - destruct (Hinv i s Hi) as [[Hout _] | (u & t & Hin & Esym & El)].
    + exfalso. apply Hout, Hmem. split; [exact Hs|]. rewrite Ed. eauto.
    + exists (refresh_price t s u), t. split; [exact El|].
      destruct (refresh_price_fields t s u) as (_ & _ & Hc & Hl).
      rewrite Hc, Hl. split; [|reflexivity].
      destruct (Hprice u Hin) as (data' & Hd' & Hp').
      rewrite Esym, Ed in Hd'. injection Hd' as <-. exact Hp'.
  - destruct (Hinv i s Hi) as [[_ El] | (u & t & Hin & Esym & _)];
      [exact El|].
    exfalso. destruct (Hprice u Hin) as (data' & Hd' & _).
    rewrite Esym, Ed in Hd'. discriminate.
Qed.

Lemma refresh_sets_the_prices_witness :
  exists (b : bool) (p' : Portfolio),
    fetch_and_update_portfolio demo_source demo_clock demo_clock [1; 0]%nat
      (mkPortfolio "P" [quote "MSFT" 5 4; quote "TSLA" 9 9])
    = Some (b, p') /\
    forall i s, [quote "MSFT" 5 4; quote "TSLA" 9 9] !! i = Some s ->
      match fetch_current_price demo_source (symbol s) with
      | Some data =>
          exists s' t,
            stocks p' !! i = Some s' /\
            current_price s' = Some (data_current_price data) /\
            last_update s' = Some t
      | None => stocks p' !! i = Some s
      end.
Proof.
  apply (refresh_sets_the_prices demo_source demo_clock demo_clock
           [1; 0]%nat (mkPortfolio "P" [quote "MSFT" 5 4; quote "TSLA" 9 9])).
  - split; [repeat constructor|]. cbn.
    repeat (constructor; [rewrite ?elem_of_cons, ?elem_of_nil;
                          intuition discriminate|]).
    constructor.
  - cbn. solve_Permutation.
Defined.

(** MSFT is priced by the demo source, TSLA is not: the refresh returns
    [True], MSFT takes the price 300 and the opening 310, TSLA stays. *)
Example refresh_on_the_demo_source :
  fetch_and_update_portfolio demo_source demo_clock demo_clock [1; 0]%nat
    (mkPortfolio "P" [quote "MSFT" 5 4; quote "TSLA" 9 9])
  = Some (true,
          mkPortfolio "P"
            [mkStock "MSFT" "MSFT" (Some (lit 300)) (Some (lit 310))
               None None (Some 7) (Some 1000);
             quote "TSLA" 9 9]) /\
  fetch_and_update_portfolio demo_source demo_clock demo_clock []
    (new_Portfolio "empty")
  = Some (false, new_Portfolio "empty").
Proof. vm_compute. split; reflexivity. Qed.

(* ===================================================================== *)
(** ** Transactions *)
(* ===================================================================== *)

Lemma fleb_zero_false (p : Q) : fleb (Fin p) (lit 0) = false -> (0 < p)%Q.
Proof.
  unfold fleb, lit. intros H. apply orb_false_iff in H as [H1 H2].
  cbn [fltb] in H1. cbn [feqb] in H2.
  apply Qlt_bool_false in H1. apply Qeq_bool_false in H2.
  change (inject_Z 0) with 0%Q in *.
  destruct (Qlt_le_dec 0 p) as [?|Hle]; [assumption|].
  exfalso. apply H2. now apply Qle_antisym.
Qed.

(** A transaction that [Transaction.__init__] accepts has a quantity
    above zero and, when its price is a number, a price above zero.
    When moreover its fees are a number that is not negative, its total
    amount either raises OverflowError, the quantity being too large for
    a float, and so does its net amount; or it is above zero (an infinity
    included), and the net amount is that total, taken negative for a
    purchase and as it is for a sale. *)
Theorem accepted_transaction_amounts :
  forall (now : datetime) (sym : string) (ty : TransactionType) (qty : Z)
         (price : float) (date : option datetime) (fee : float)
         (t : Transaction) (p f : Q),
    new_Transaction now sym ty qty price date fee = inr t ->
    price = Fin p -> fee = Fin f -> (0 <= f)%Q ->
    0 < quantity t /\ (0 < p)%Q /\
    match get_total_amount t with
    | inl e =>
        2 ^ 1024 - 2 ^ 970 <= quantity t /\ get_net_amount t = inl e
    | inr a =>
        quantity t < 2 ^ 1024 - 2 ^ 970 /\ above_zero a /\
        get_net_amount t
        = inr match transaction_type t with
              | BUY => fneg a
              | SELL => a
              end
    end.
Proof.
  intros now sym ty qty price date fee t p f H -> -> Hf.
  unfold new_Transaction in H.
  destruct (qty <=? 0) eqn:Eq; [discriminate|].
  destruct (fleb (Fin p) (lit 0)) eqn:Ep; [discriminate|].
  injection H as <-. apply Z.leb_gt in Eq. apply fleb_zero_false in Ep.
  cbn [quantity]. split; [exact Eq|]. split; [exact Ep|].
  unfold get_net_amount, get_total_amount, float_of_int, is_buy.
  cbn [quantity price_per_share fees transaction_type].
  rewrite (Z.abs_eq qty) by lia.
  destruct (qty <? 2 ^ 1024 - 2 ^ 970) eqn:El.
  - apply Z.ltb_lt in El. split; [exact El|]. split.
    + cbn [fmul fadd lit above_zero].
      assert (Hq : (0 < inject_Z qty)%Q) by (unfold Qlt; cbn; lia).
      pose proof (Qmult_lt_0_compat _ _ Hq Ep). lra.
    + now destruct ty.
  - apply Z.ltb_ge in El. split; [exact El | reflexivity].
Qed.

Lemma accepted_transaction_amounts_witness :
  get_total_amount
    (mkTransaction None "AAPL" BUY 10 (Fin (351 # 2)) 7 (Fin 5))
  = inr (Fin (10 * (351 # 2) + 5)) /\
  get_net_amount
    (mkTransaction None "AAPL" BUY 10 (Fin (351 # 2)) 7 (Fin 5))
  = inr (Fin (- (10 * (351 # 2) + 5))).
Proof.
  split; [reflexivity|].
  destruct (accepted_transaction_amounts 7 "aapl" BUY 10 (Fin (351 # 2))
              None (Fin 5) _ (351 # 2) 5 eq_refl eq_refl eq_refl)
    as (_ & _ & H).
  - discriminate.
  - exact (proj2 (proj2 H)).
Defined.

(** Quantity is tested before price; a price that is not a number (NaN)
    passes the test [price <= 0]; a quantity of 10^400 is accepted and
    its total amount raises OverflowError. *)
Example transaction_validation :
  new_Transaction 7 "tsla" BUY (-5) (lit 200) None (lit 0)
  = inl "La quantité doit être positive"%string /\
  new_Transaction 7 "tsla" BUY 0 (lit (-1)) None (lit 0)
  = inl "La quantité doit être positive"%string /\
  new_Transaction 7 "tsla" SELL 5 (lit 0) None (lit 0)
  = inl "Le prix par action doit être positif"%string /\
  new_Transaction 7 "tsla" SELL 5 NaN (Some 3) (lit 0)
  = inr (mkTransaction None "TSLA" SELL 5 NaN 3 (lit 0)) /\
  get_total_amount
    (mkTransaction None "TSLA" BUY (10 ^ 400) (lit 2) 3 (lit 0))
  = inl "int too large to convert to float"%string.
Proof. repeat split. Qed.

(* ===================================================================== *)
(** ** The table of names (utils/action_dict.py) *)
(* ===================================================================== *)

Lemma is_space_upper (c : ascii) : is_space (upper_ascii c) = is_space c.
Proof. destruct c as [[] [] [] [] [] [] [] []]; reflexivity. Qed.

Lemma lower_upper_ascii (c : ascii) :
  lower_ascii (upper_ascii c) = lower_ascii c.
Proof. destruct c as [[] [] [] [] [] [] [] []]; reflexivity. Qed.

Lemma is_ascii_upper (c : ascii) : is_ascii (upper_ascii c) = is_ascii c.
Proof. destruct c as [[] [] [] [] [] [] [] []]; reflexivity. Qed.

Lemma lower_upper (s : string) : lower (upper s) = lower s.
Proof.
  induction s as [|c s IH]; cbn [lower upper]; [reflexivity|].
  now rewrite lower_upper_ascii, IH.
Qed.

Lemma ascii_text_upper (s : string) : ascii_text (upper s) = ascii_text s.
Proof.
  induction s as [|c s IH]; cbn [ascii_text upper]; [reflexivity|].
  now rewrite is_ascii_upper, IH.
Qed.

Lemma upper_empty (s : string) : upper s = EmptyString -> s = EmptyString.
Proof. destruct s; [reflexivity | discriminate]. Qed.

Lemma lstrip_upper (s : string) : lstrip (upper s) = upper (lstrip s).
Proof.
  induction s as [|c s IH]; cbn [lstrip upper]; [reflexivity|].
  rewrite is_space_upper. destruct (is_space c); [exact IH | reflexivity].
Qed.

Lemma rstrip_upper (s : string) : rstrip (upper s) = upper (rstrip s).
Proof.
  induction s as [|c s IH]; cbn [rstrip upper]; [reflexivity|].
  rewrite IH, is_space_upper.
  destruct (rstrip s) as [|d r]; cbn [upper].
  - destruct (is_space c); reflexivity.
  - reflexivity.
Qed.

Lemma strip_upper (s : string) : strip (upper s) = upper (strip s).
Proof. unfold strip. now rewrite lstrip_upper, rstrip_upper. Qed.

Lemma rstrip_idempotent (s : string) : rstrip (rstrip s) = rstrip s.
Proof.
  induction s as [|c s IH]; cbn [rstrip]; [reflexivity|].
  destruct (rstrip s) as [|d r] eqn:E.
  - destruct (is_space c) eqn:Ec; cbn [rstrip]; [reflexivity|].
    now rewrite Ec.
  - cbn [rstrip]. cbn [rstrip] in IH. now rewrite IH.
Qed.

Lemma lstrip_ascii (s : string) :
  ascii_text s = true -> ascii_text (lstrip s) = true.
Proof.
  induction s as [|c s IH]; cbn [lstrip ascii_text]; [trivial|].
  intros H. apply andb_prop in H as [Hc Hs].
  destruct (is_space c); [auto|]. cbn [ascii_text]. now rewrite Hc, Hs.
Qed.

Lemma rstrip_ascii (s : string) :
  ascii_text s = true -> ascii_text (rstrip s) = true.
Proof.
  induction s as [|c s IH]; cbn [rstrip ascii_text]; [trivial|].
  intros H. apply andb_prop in H as [Hc Hs]. specialize (IH Hs).
  destruct (rstrip s) as [|d r].
  - destruct (is_space c); cbn [ascii_text]; [reflexivity|].
    now rewrite Hc.
  - cbn [ascii_text] in *. now rewrite Hc, IH.
Qed.

Lemma strip_ascii (s : string) :
  ascii_text s = true -> ascii_text (strip s) = true.
Proof. intros H. apply rstrip_ascii, lstrip_ascii, H. Qed.

(** What [lstrip] leaves starts with a character that is no white space,
    and so does what [rstrip] keeps of it. *)
Lemma lstrip_head (s : string) :
  match lstrip s with
  | EmptyString => True
  | String c _ => is_space c = false
  end.
Proof.
  induction s as [|c s IH]; cbn [lstrip]; [exact I|].
  destruct (is_space c) eqn:E; [exact IH | exact E].
Qed.

Lemma lstrip_rstrip (s : string) :
  match s with
  | EmptyString => True
  | String c _ => is_space c = false
  end ->
  lstrip (rstrip s) = rstrip s.
Proof.
  destruct s as [|c s]; [reflexivity|]. intros Hc. cbn [rstrip].
  destruct (rstrip s); rewrite ?Hc; cbn [lstrip]; now rewrite Hc.
Qed.

Lemma strip_idempotent (s : string) : strip (strip s) = strip s.
Proof.
  unfold strip. rewrite (lstrip_rstrip _ (lstrip_head s)).
  apply rstrip_idempotent.
Qed.

(** What the loop returns is the value of one of the names. *)
Lemma find_name_in (wanted : string) (items : name_dict)
    (v : option string) :
  find_name wanted items = Some v ->
  exists nom, (nom, v) ∈ items /\ lower nom = wanted.
Proof.
  induction items as [|[nom symbole] rest IH]; cbn [find_name];
    [discriminate|].
  destruct (String.eqb_spec (lower nom) wanted) as [E|E].
  - intros [= <-]. exists nom. split; [left | exact E].
  - intros H. destruct (IH H) as (n & Hin & Hn).
    exists n. split; [right; exact Hin | exact Hn].
Qed.

(** Among names that differ in lower case, the loop finds the one asked
    for. *)
Lemma find_name_unique (items : name_dict) (nom : string)
    (v : option string) :
  NoDup ((fun kv => lower (fst kv)) <$> items) ->
  (nom, v) ∈ items ->
  find_name (lower nom) items = Some v.
Proof.
  induction items as [|[n s] rest IH]; intros Hnd Hin;
    [inversion Hin|].
  cbn [fmap list_fmap fst] in Hnd. apply NoDup_cons in Hnd as [Hfresh Hnd].
  cbn [find_name].
  apply elem_of_cons in Hin as [E|Hin].
  - injection E as <- <-. now rewrite String.eqb_refl.
  - destruct (String.eqb_spec (lower n) (lower nom)) as [E|E].
    + exfalso. apply Hfresh. rewrite E.
      apply (list_elem_of_fmap_2 (fun kv => lower (fst kv)) rest (nom, v)).
      exact Hin.
    + apply IH; assumption.
Qed.

Lemma distinct_NoDup (l : list string) : distinct l = true -> NoDup l.
Proof.
  induction l as [|x rest IH]; cbn [distinct]; intros H; [constructor|].
  apply andb_prop in H as [Hx Hrest]. constructor; [|now apply IH].
  intros Hin. apply negb_true_iff in Hx.
  assert (E : existsb (String.eqb x) rest = true); [|congruence].
  apply existsb_exists. exists x.
  split; [now apply list_elem_of_In | apply String.eqb_refl].
Qed.

Lemma ACTIONS_DICT_names_differ :
  NoDup ((fun kv => lower (fst kv)) <$> ACTIONS_DICT).
Proof. apply distinct_NoDup. vm_compute. reflexivity. Qed.

Lemma settled_spec (s : string) :
  settled s = true ->
  ascii_text s = true /\ upper s = s /\ strip s = s /\
  rechercher_action s = Some s.
Proof.
  unfold settled. intros H.
  apply andb_prop in H as [H H4]. apply andb_prop in H as [H H3].
  apply andb_prop in H as [H1 H2].
  apply String.eqb_eq in H2, H3.
  destruct (rechercher_action s) as [s'|]; [|discriminate].
  apply String.eqb_eq in H4. subst s'. auto.
Qed.

(** Every symbol of the table is ASCII text in upper case without white
    space at its ends, and is looked up as itself. *)
Lemma ACTIONS_DICT_symbols (nom s : string) :
  (nom, Some s) ∈ ACTIONS_DICT -> settled s = true.
Proof.
  intros Hin.
  assert (H : forallb (fun kv => match snd kv with
                                 | Some s => settled s
                                 | None => true
                                 end) ACTIONS_DICT = true)
    by (vm_compute; reflexivity).
  rewrite forallb_forall in H.
  apply (H (nom, Some s)). now apply list_elem_of_In.
Qed.

(** X.  A symbol that [rechercher_action] returns for ASCII text is
    itself ASCII text in upper case without white space at its ends, and
    looking it up again returns it unchanged. *)
Theorem rechercher_action_fixed_point (q s : string) :
  ascii_text q = true ->
  rechercher_action q = Some s ->
  ascii_text s = true /\ upper s = s /\ strip s = s /\
  rechercher_action s = Some s.
Proof.
  intros Hq. unfold rechercher_action at 1. cbv zeta.
  destruct (find_name (lower (strip q)) ACTIONS_DICT) as [v|] eqn:E.
  - intros ->. apply find_name_in in E as (nom & Hin & _).
    apply settled_spec. exact (ACTIONS_DICT_symbols nom s Hin).
  - intros [= <-].
    assert (Hs : strip (upper (strip q)) = upper (strip q))
      by now rewrite strip_upper, strip_idempotent.
    repeat split.
    + rewrite ascii_text_upper. now apply strip_ascii.
    + apply upper_idempotent.
    + exact Hs.
    + unfold rechercher_action. cbv zeta.
      rewrite Hs, lower_upper, E. now rewrite upper_idempotent.
Qed.

Lemma rechercher_action_fixed_point_witness :
  rechercher_action "  brk-b " = Some "BRK-B"%string /\
  rechercher_action "BRK-B" = Some "BRK-B"%string.
Proof.
  split; [reflexivity|].
  apply (rechercher_action_fixed_point "  brk-b " "BRK-B"); reflexivity.
Defined.

(** X.  A name of the table, typed as ASCII text in any case and with
    white space around it, is answered with the symbol the table gives
    that name. *)
Theorem rechercher_action_by_name (q nom : string)
    (symbole : option string) :
  ascii_text q = true ->
  (nom, symbole) ∈ ACTIONS_DICT ->
  lower (strip q) = lower nom ->
  rechercher_action q = symbole.
Proof.
  intros _ Hin Hq. unfold rechercher_action. cbv zeta.
  rewrite Hq.
  now rewrite (find_name_unique _ _ _ ACTIONS_DICT_names_differ Hin).
Qed.

Lemma rechercher_action_by_name_witness :
  rechercher_action "  mcdonald'S " = Some "MCD"%string /\
  rechercher_action "SPACEX" = None.
Proof.
  split.
  - apply (rechercher_action_by_name _ "McDonald's"); [reflexivity | |
      reflexivity].
    apply (list_elem_of_lookup_2 _ 46%nat). reflexivity.
  - apply (rechercher_action_by_name _ "SpaceX"); [reflexivity | |
      reflexivity].
    apply (list_elem_of_lookup_2 _ 66%nat). reflexivity.
Defined.

Example rechercher_action_examples :
  rechercher_action "google" = Some "GOOGL"%string /\
  rechercher_action " msft" = Some "MSFT"%string /\
  rechercher_action "Total" = Some "TTE"%string /\
  rechercher_action "airbus" = Some "EADSY"%string /\
  rechercher_action "x y " = Some "X Y"%string /\
  rechercher_action "SpaceX" = None /\
  length ACTIONS_DICT = 87%nat.
Proof. repeat split; reflexivity. Qed.
